(** * Shallow embedding of the OMR core of exam-grading (run_omr.py)

    Intensities, thresholds and coordinates are Python floats in the source;
    they are modelled here as exact rationals [Q].  Dictionaries are modelled
    as association lists with Python's insertion-order semantics. *)

From Stdlib Require Import QArith Qminmax Qround ZArith List String Ascii
  Sorted Permutation Lia Lqa Bool.
Import ListNotations.
Open Scope Q_scope.

(** ** Configuration constants (run_omr.py, top of module) *)

Definition MIN_JUMP : Q := 25.
Definition THRESHOLD_CIRCLE : Q := 6 # 10.
Definition ANCHOR_RADIUS : Q := 10.
Definition ANCHOR_DISTANCE : Q := 30.
Definition GLOBAL_THRESHOLD : Q := 210.

(** Strict comparison on [Q] as a boolean, i.e. Python's [<] on floats. *)
Definition Qltb (a b : Q) : bool := negb (Qle_bool b a).

(** Python's builtin [min(a, b)]: the first argument unless the second is
    strictly smaller. *)
Definition py_min (a b : Q) : Q := if Qltb b a then b else a.

(** ** Python's [sorted] on a list of floats (a stable ascending sort). *)

Fixpoint insert_q (x : Q) (l : list Q) : list Q :=
  match l with
  | [] => [x]
  | y :: t => if Qle_bool x y then x :: y :: t else y :: insert_q x t
  end.

Fixpoint sorted_q (l : list Q) : list Q :=
  match l with
  | [] => []
  | x :: t => insert_q x (sorted_q t)
  end.

Fixpoint sum_q (l : list Q) : Q :=
  match l with
  | [] => 0
  | x :: t => x + sum_q t
  end.

(** [np.mean]. *)
Definition np_mean (l : list Q) : Q := sum_q l / inject_Z (Z.of_nat (List.length l)).

(** ** calculate_threshold *)

(** The loop [for i in range(1, n)] of [calculate_threshold], over the sorted
    values [prev :: rest], threading [max_gap] and [threshold]. *)
Fixpoint gap_scan (prev : Q) (rest : list Q) (max_gap threshold : Q) : Q * Q :=
  match rest with
  | [] => (max_gap, threshold)
  | x :: t =>
      let gap := x - prev in
      if Qltb MIN_JUMP gap && Qltb max_gap gap
      then gap_scan x t gap ((x + prev) / 2)
      else gap_scan x t max_gap threshold
  end.

Definition calculate_threshold (values : list Q) : Q :=
  match values with
  | [] => py_min 200 GLOBAL_THRESHOLD
  | _ =>
      let sorted_values := sorted_q values in
      let '(max_gap, threshold) :=
        match sorted_values with
        | [] => (0, py_min 200 GLOBAL_THRESHOLD)
        | v0 :: vs => gap_scan v0 vs 0 (py_min 200 GLOBAL_THRESHOLD)
        end in
      let threshold :=
        if Qeq_bool max_gap 0 then np_mean sorted_values else threshold in
      py_min threshold GLOBAL_THRESHOLD
  end.

(** Consecutive pairs [(sorted_values[i-1], sorted_values[i])]. *)
Fixpoint consecutive_pairs (l : list Q) : list (Q * Q) :=
  match l with
  | a :: ((b :: _) as t) => (a, b) :: consecutive_pairs t
  | _ => []
  end.


(** ** point_to_pixel *)

(** Python's [int(x)] on a float: truncation toward zero. *)
Definition py_int (x : Q) : Z := Z.quot (Qnum x) (Zpos (Qden x)).

Definition point_to_pixel (point_value dpi : Q) : Z :=
  py_int (point_value * dpi / (7227 # 100)).

(** ** Bubble classification (process_single_image, create_overlay_with_marks) *)

(** [is_marked = (value < threshold and value < GLOBAL_THRESHOLD)] *)
Definition is_marked (value threshold : Q) : bool :=
  Qltb value threshold && Qltb value GLOBAL_THRESHOLD.

(** ** Python string helpers *)

Fixpoint py_contains (c : ascii) (s : string) : bool :=
  match s with
  | EmptyString => false
  | String a s' => Ascii.eqb a c || py_contains c s'
  end.

Fixpoint py_split_aux (sep : ascii) (s : string) (cur : list ascii) : list string :=
  match s with
  | EmptyString => [string_of_list_ascii (rev cur)]
  | String a s' =>
      if Ascii.eqb a sep
      then string_of_list_ascii (rev cur) :: py_split_aux sep s' []
      else py_split_aux sep s' (a :: cur)
  end.

(** [s.split(sep)] for a one-character separator. *)
Definition py_split (sep : ascii) (s : string) : list string := py_split_aux sep s [].

(** [l[i]]: [None] stands for the [IndexError] Python raises. *)
Definition py_index (l : list string) (i : nat) : option string := nth_error l i.

Definition digit_of_ascii (a : ascii) : option Z :=
  let n := nat_of_ascii a in
  if (48 <=? n)%nat && (n <=? 57)%nat then Some (Z.of_nat (n - 48)) else None.

Fixpoint parse_digits (s : string) (acc : Z) : option Z :=
  match s with
  | EmptyString => Some acc
  | String a s' =>
      match digit_of_ascii a with
      | Some d => parse_digits s' (10 * acc + d)%Z
      | None => None
      end
  end.

(** Python's [int(s)] on a string: an optional sign followed by decimal
    digits; [None] stands for the [ValueError] Python raises.  (Surrounding
    whitespace and digit-group underscores, also accepted by Python, do not
    occur in the bubble table's position fields and are not modelled.) *)
Definition py_int_of_string (s : string) : option Z :=
  match s with
  | EmptyString => None
  | String a s' =>
      if Ascii.eqb a "-"%char then
        match s' with EmptyString => None | _ => option_map Z.opp (parse_digits s' 0) end
      else if Ascii.eqb a "+"%char then
        match s' with EmptyString => None | _ => parse_digits s' 0 end
      else parse_digits s 0
  end.

Fixpoint string_of_uint (u : Decimal.uint) : string :=
  match u with
  | Decimal.Nil => EmptyString
  | Decimal.D0 u => String "0" (string_of_uint u)
  | Decimal.D1 u => String "1" (string_of_uint u)
  | Decimal.D2 u => String "2" (string_of_uint u)
  | Decimal.D3 u => String "3" (string_of_uint u)
  | Decimal.D4 u => String "4" (string_of_uint u)
  | Decimal.D5 u => String "5" (string_of_uint u)
  | Decimal.D6 u => String "6" (string_of_uint u)
  | Decimal.D7 u => String "7" (string_of_uint u)
  | Decimal.D8 u => String "8" (string_of_uint u)
  | Decimal.D9 u => String "9" (string_of_uint u)
  end.

(** [f"{z}"] for an integer. *)
Definition string_of_Z (z : Z) : string :=
  match Z.to_int z with
  | Decimal.Pos u => string_of_uint u
  | Decimal.Neg u => String "-" (string_of_uint u)
  end.

(** ** Python dicts: association lists in insertion order *)

Fixpoint dict_get {K V : Type} (eqk : K -> K -> bool) (k : K) (d : list (K * V))
  : option V :=
  match d with
  | [] => None
  | (k', v) :: t => if eqk k k' then Some v else dict_get eqk k t
  end.

(** [d[k] = v]: an existing key keeps its place, a new key goes last. *)
Fixpoint dict_set {K V : Type} (eqk : K -> K -> bool) (k : K) (v : V)
  (d : list (K * V)) : list (K * V) :=
  match d with
  | [] => [(k, v)]
  | (k', v') :: t =>
      if eqk k k' then (k', v) :: t else (k', v') :: dict_set eqk k v t
  end.

Definition pair_eqb (a b : string * string) : bool :=
  String.eqb (fst a) (fst b) && String.eqb (snd a) (snd b).

(** ** Data model *)

(** A row of the bubble-position CSV. *)
Record bubble_row := {
  row_page : Z;
  row_question : string;
  row_subquestion : string;
  row_choice : string;
  row_Xpos : Q;
  row_Ypos : Q
}.

(** [results_df]: cells indexed by (student_id, column). *)
Definition results_table := list ((string * string) * Q).

(** [all_student_answers]: student_id -> "problem.subquestion" -> tokens. *)
Definition answer_table := list (string * list (string * list string)).

Definition is_DS (d : string) : bool := String.eqb d "D" || String.eqb d "S".

(** ['-' in s and len(s.split('-')) >= 3] *)
Definition is_numeric_code (s : string) : bool :=
  py_contains "-"%char s && (3 <=? List.length (py_split "-"%char s))%nat.

(** The decimal/slash test on a bubble key, written identically in the
    threshold filter, the per-page results loop and the overlay. *)
Definition is_decimal_slash (key : string) : bool :=
  py_contains "_"%char key &&
  (let choice_part := nth 1 (py_split "_"%char key) EmptyString in
   is_numeric_code choice_part &&
   is_DS (nth 2 (py_split "-"%char choice_part) EmptyString)).

(** The box drawn for a bubble by [create_overlay_with_marks]. *)
Inductive overlay_mark := Green_circle | Marked_box | Unmarked_box.

Definition overlay_mark_of (key : string) (value threshold : Q) : overlay_mark :=
  if is_decimal_slash key then Green_circle
  else if is_marked value threshold then Marked_box
  else Unmarked_box.

(** ** detect_bubble_values

    [sample row] is the mean intensity of the row's clipped inscribed box in
    the aligned image (255 when the box is empty); the image itself is not
    modelled.  Only the values are modelled, not [bubble_positions]. *)
Definition bubble_key_value (sample : bubble_row -> Q) (row : bubble_row) : string * Q :=
  let question := row_question row in
  if is_numeric_code question then
    let base_question := nth 0 (py_split "-"%char question) EmptyString in
    let key := (base_question ++ "." ++ row_subquestion row ++ "_" ++ question)%string in
    if is_DS (nth 2 (py_split "-"%char question) EmptyString)
    then (key, 100)
    else (key, sample row)
  else
    ((question ++ "." ++ row_subquestion row ++ "_" ++ row_choice row)%string, sample row).

Fixpoint detect_bubble_values_aux (sample : bubble_row -> Q) (rows : list bubble_row)
  (acc : list (string * Q)) : list (string * Q) :=
  match rows with
  | [] => acc
  | row :: rest =>
      let '(key, value) := bubble_key_value sample row in
      detect_bubble_values_aux sample rest (dict_set String.eqb key value acc)
  end.

Definition detect_bubble_values (sample : bubble_row -> Q) (rows : list bubble_row)
  : list (string * Q) :=
  detect_bubble_values_aux sample rows [].

(** ** process_single_image: the loop over [bubble_values.items()] *)

Record loop_state := {
  ls_results : results_table;                  (* results_df *)
  ls_numeric : list (string * list (Z * string)); (* numeric_bubbles *)
  ls_regular : list (string * list string)      (* regular_bubbles *)
}.

Definition bubble_step (student_id : string) (threshold : Q) (st : loop_state)
  (kv : string * Q) : option loop_state :=
  let '(key, value) := kv in
  let results :=
    if is_decimal_slash key then ls_results st
    else dict_set pair_eqb (student_id, key) value (ls_results st) in
  let marked := is_marked value threshold in
  match py_split "_"%char key with
  | [question_subquestion; choice] =>
      if is_numeric_code choice then
        let choice_parts := py_split "-"%char choice in
        match py_int_of_string (nth 1 choice_parts EmptyString) with
        | None => None
        | Some position =>
            let digit_value := nth 2 choice_parts EmptyString in
            if is_DS digit_value || marked then
              let inner :=
                match dict_get String.eqb question_subquestion (ls_numeric st) with
                | Some m => m
                | None => []
                end in
              let inner :=
                match dict_get Z.eqb position inner with
                | Some _ => inner
                | None => dict_set Z.eqb position digit_value inner
                end in
              Some {| ls_results := results;
                      ls_numeric := dict_set String.eqb question_subquestion inner (ls_numeric st);
                      ls_regular := ls_regular st |}
            else
              Some {| ls_results := results; ls_numeric := ls_numeric st;
                      ls_regular := ls_regular st |}
        end
      else if marked then
        let old :=
          match dict_get String.eqb question_subquestion (ls_regular st) with
          | Some l => l
          | None => []
          end in
        Some {| ls_results := results; ls_numeric := ls_numeric st;
                ls_regular := dict_set String.eqb question_subquestion
                                 (old ++ [choice])%list (ls_regular st) |}
      else
        Some {| ls_results := results; ls_numeric := ls_numeric st;
                ls_regular := ls_regular st |}
  | _ =>
      Some {| ls_results := results; ls_numeric := ls_numeric st;
              ls_regular := ls_regular st |}
  end.

Fixpoint bubble_loop (student_id : string) (threshold : Q) (st : loop_state)
  (items : list (string * Q)) : option loop_state :=
  match items with
  | [] => Some st
  | kv :: rest =>
      match bubble_step student_id threshold st kv with
      | None => None
      | Some st' => bubble_loop student_id threshold st' rest
      end
  end.

(** ** Numeric answers *)

Definition digit_symbol (digit : string) : string :=
  if String.eqb digit "D" then "."
  else if String.eqb digit "S" then "/"
  else digit.

(** Python's ordering of the [(position, digit)] tuples of [positions.items()]. *)
Definition pos_ltb (a b : Z * string) : bool :=
  (fst a <? fst b)%Z || ((fst a =? fst b)%Z && String.ltb (snd a) (snd b)).

Fixpoint insert_pos (x : Z * string) (l : list (Z * string)) : list (Z * string) :=
  match l with
  | [] => [x]
  | y :: t => if pos_ltb y x then y :: insert_pos x t else x :: y :: t
  end.

Fixpoint sorted_positions (l : list (Z * string)) : list (Z * string) :=
  match l with
  | [] => []
  | x :: t => insert_pos x (sorted_positions t)
  end.

(** The numeric answer built for one question, if any. *)
Definition numeric_answer (positions : list (Z * string)) : option string :=
  match positions with
  | [] => None
  | _ =>
      if existsb (fun pd => negb (is_DS (snd pd))) positions then
        Some (fold_left (fun acc pd => (acc ++ digit_symbol (snd pd))%string)
                (sorted_positions positions) EmptyString)
      else None
  end.

(** [all_student_answers[student_id]] *)
Definition student_answers (student_id : string) (answers : answer_table)
  : list (string * list string) :=
  match dict_get String.eqb student_id answers with Some m => m | None => [] end.

Definition set_student_answers (student_id : string) (m : list (string * list string))
  (answers : answer_table) : answer_table :=
  dict_set String.eqb student_id m answers.

Definition question_tokens (question : string) (m : list (string * list string))
  : list string :=
  match dict_get String.eqb question m with Some l => l | None => [] end.

(** The loop storing numeric answers. *)
Fixpoint store_numeric (numeric : list (string * list (Z * string)))
  (m : list (string * list string)) : list (string * list string) :=
  match numeric with
  | [] => m
  | (question, positions) :: rest =>
      match numeric_answer positions with
      | Some ans =>
          store_numeric rest
            (dict_set String.eqb question (question_tokens question m ++ [ans])%list m)
      | None => store_numeric rest m
      end
  end.

(** Whether [choice] of [question] is paired with a numeric-bubble group
    ([is_other_choice]); [None] is the [IndexError] of [question.split('.')[1]]. *)
Definition is_other_choice (page_bubbles : list bubble_row) (question choice : string)
  : option bool :=
  let question_num := nth 0 (py_split "."%char question) EmptyString in
  match py_index (py_split "."%char question) 1 with
  | None => None
  | Some subquestion =>
      Some (existsb (fun bubble =>
              String.prefix (question_num ++ "-") (row_question bubble) &&
              String.eqb (row_subquestion bubble) subquestion &&
              String.eqb (row_choice bubble) choice) page_bubbles)
  end.

Fixpoint filter_choices (page_bubbles : list bubble_row) (question : string)
  (has_numeric_answer : bool) (choices : list string) : option (list string) :=
  match choices with
  | [] => Some []
  | choice :: rest =>
      match is_other_choice page_bubbles question choice, 
            filter_choices page_bubbles question has_numeric_answer rest with
      | Some other, Some kept =>
          Some (if negb has_numeric_answer || negb other then choice :: kept else kept)
      | _, _ => None
      end
  end.

(** The loop storing multiple-choice answers. *)
Fixpoint store_regular (page_bubbles : list bubble_row)
  (regular : list (string * list string)) (m : list (string * list string))
  : option (list (string * list string)) :=
  match regular with
  | [] => Some m
  | (question, choices) :: rest =>
      let m := match dict_get String.eqb question m with
               | Some _ => m
               | None => dict_set String.eqb question [] m
               end in
      let has_numeric_answer :=
        match question_tokens question m with [] => false | _ => true end in
      match filter_choices page_bubbles question has_numeric_answer choices with
      | None => None
      | Some filtered =>
          store_regular page_bubbles rest
            (dict_set String.eqb question (question_tokens question m ++ filtered)%list m)
      end
  end.

Definition threshold_column (page_number : Z) : string :=
  ("page" ++ string_of_Z page_number ++ "_threshold")%string.

Definition values_for_threshold (bubble_values : list (string * Q)) : list Q :=
  map snd (filter (fun kv => negb (is_decimal_slash (fst kv))) bubble_values).

Definition page_threshold (bubble_values : list (string * Q)) : Q :=
  match values_for_threshold bubble_values with
  | [] => GLOBAL_THRESHOLD
  | vs => calculate_threshold vs
  end.

(** Everything [process_single_image] does after sampling the bubbles of a
    page with definitions: [None] is an exception escaping the call. *)
Definition process_bubbles (student_id : string) (page_number : Z)
  (page_bubbles : list bubble_row) (bubble_values : list (string * Q))
  (results : results_table) (answers : answer_table)
  : option (results_table * answer_table) :=
  match bubble_values with
  | [] => Some (results, answers)
  | _ =>
      let threshold := page_threshold bubble_values in
      let answers :=
        match dict_get String.eqb student_id answers with
        | Some _ => answers
        | None => set_student_answers student_id [] answers
        end in
      match bubble_loop student_id threshold
              {| ls_results := results; ls_numeric := []; ls_regular := [] |}
              bubble_values with
      | None => None
      | Some st =>
          let m := store_numeric (ls_numeric st) (student_answers student_id answers) in
          match store_regular page_bubbles (ls_regular st) m with
          | None => None
          | Some m =>
              Some (dict_set pair_eqb (student_id, threshold_column page_number)
                      threshold (ls_results st),
                    set_student_answers student_id m answers)
          end
      end
  end.

(** [df_bubbles[df_bubbles['page'] == page_number]] *)
Definition page_rows (page_number : Z) (df_bubbles : list bubble_row) : list bubble_row :=
  filter (fun r => (row_page r =? page_number)%Z) df_bubbles.

(** [process_single_image] once the image is loaded and aligned: [sample]
    reads the aligned image. *)
Definition process_single_image (sample : bubble_row -> Q) (student_id : string)
  (page_number : Z) (df_bubbles : list bubble_row)
  (results : results_table) (answers : answer_table)
  : option (results_table * answer_table) :=
  let page_bubbles := page_rows page_number df_bubbles in
  match page_bubbles with
  | [] => Some (results, answers)
  | _ =>
      process_bubbles student_id page_number page_bubbles
        (detect_bubble_values sample page_bubbles) results answers
  end.

(** ** create_consolidated_output *)

Fixpoint insert_str (x : string) (l : list string) : list string :=
  match l with
  | [] => [x]
  | y :: t => if String.leb x y then x :: y :: t else y :: insert_str x t
  end.

(** Python's [sorted] on a list of strings. *)
Fixpoint sorted_str (l : list string) : list string :=
  match l with
  | [] => []
  | x :: t => insert_str x (sorted_str t)
  end.

(** [','.join(l)] *)
Definition comma_join (l : list string) : string := String.concat "," l.

(** The sort key [(int(x.split('.')[0]), x.split('.')[1])]; [None] is the
    [ValueError] or [IndexError] it may raise. *)
Definition question_sort_key (q : string) : option (Z * string) :=
  match py_int_of_string (nth 0 (py_split "."%char q) EmptyString),
        py_index (py_split "."%char q) 1 with
  | Some n, Some sub => Some (n, sub)
  | _, _ => None
  end.

Definition key_ltb (a b : Z * string) : bool :=
  (fst a <? fst b)%Z || ((fst a =? fst b)%Z && String.ltb (snd a) (snd b)).

Fixpoint insert_keyed (x : (Z * string) * string) (l : list ((Z * string) * string))
  : list ((Z * string) * string) :=
  match l with
  | [] => [x]
  | y :: t => if key_ltb (fst x) (fst y) then x :: y :: t else y :: insert_keyed x t
  end.

Fixpoint sort_keyed (l : list ((Z * string) * string)) : list ((Z * string) * string) :=
  match l with
  | [] => []
  | x :: t => insert_keyed x (sort_keyed t)
  end.

Fixpoint keyed_questions (qs : list string) : option (list ((Z * string) * string)) :=
  match qs with
  | [] => Some []
  | q :: rest =>
      match question_sort_key q, keyed_questions rest with
      | Some k, Some l => Some ((k, q) :: l)
      | _, _ => None
      end
  end.

(** [all_questions.update(student_answers.keys())]: the set of questions
    (in first-seen order; Python's set order is not modelled). *)
Fixpoint add_unique (l : list string) (acc : list string) : list string :=
  match l with
  | [] => acc
  | x :: t =>
      add_unique t (if existsb (String.eqb x) acc then acc else (acc ++ [x])%list)
  end.

Definition all_questions (answers : answer_table) : list string :=
  fold_left (fun acc sa => add_unique (map fst (snd sa)) acc) answers [].

(** The cell written by [consolidated_df.loc[student_id, question] = ...],
    or [''] from [fillna]. *)
Definition consolidated_cell (answers : answer_table) (student_id question : string)
  : string :=
  match dict_get String.eqb student_id answers with
  | Some m =>
      match dict_get String.eqb question m with
      | Some choices => comma_join (sorted_str choices)
      | None => EmptyString
      end
  | None => EmptyString
  end.

Inductive consolidated_output :=
| No_student_answers
| Raised_exception
(** rows indexed by sorted student ids; each row maps the sorted question
    columns to their cells *)
| Written (columns : list string) (rows : list (string * list (string * string))).

Definition create_consolidated_output (answers : answer_table) : consolidated_output :=
  match answers with
  | [] => No_student_answers
  | _ =>
      match keyed_questions (all_questions answers) with
      | None => Raised_exception
      | Some kq =>
          let sorted_questions := map snd (sort_keyed kq) in
          Written sorted_questions
            (map (fun sid =>
                    (sid, map (fun q => (q, consolidated_cell answers sid q)) sorted_questions))
                 (sorted_str (map fst answers)))
      end
  end.

(** Cell lookup in the written table. *)
Definition output_cell (out : consolidated_output) (student_id question : string)
  : option string :=
  match out with
  | Written _ rows =>
      match dict_get String.eqb student_id rows with
      | Some row => dict_get String.eqb question row
      | None => None
      end
  | _ => None
  end.

(** ** align_image_with_markers

    The OpenCV operations are kept abstract: [crop img x1 y1 x2 y2] is
    [img[y1:y2, x1:x2]], [prepare_marker t n] the resized, blurred and
    normalised template, [match_template region marker] the maximum of
    [cv2.matchTemplate(..., TM_CCOEFF_NORMED)] and its location, and [warp]
    the composition of [getPerspectiveTransform] and [warpPerspective].
    [cv2.matchTemplate] raising on a region smaller than the marker is not
    modelled. *)
(** The OpenCV operations [align_image_with_markers] uses. *)
Record opencv (image : Type) := {
  image_shape : image -> Z * Z;                    (* image.shape = (h, w) *)
  crop : image -> Z -> Z -> Z -> Z -> image;
  prepare_marker : image -> Z -> image;
  match_template : image -> image -> Q * (Z * Z);
  warp : image -> list (Q * Q) -> list (Q * Q) -> Z * Z -> image
}.

Arguments image_shape {image}.
Arguments crop {image}.
Arguments prepare_marker {image}.
Arguments match_template {image}.
Arguments warp {image}.

Definition search_regions (w h : Z) : list (Z * Z * Z * Z) :=
  let margin := (w / 4)%Z in
  [(0, 0, margin, margin);
   (w - margin, 0, w, margin);
   (0, h - margin, margin, h);
   (w - margin, h - margin, w, h)]%Z.

Definition to_Q_point (p : Z * Z) : Q * Q := (inject_Z (fst p), inject_Z (snd p)).

Definition target_points (w h : Z) (dpi : Q * Q) : list (Q * Q) :=
  let offset := point_to_pixel ANCHOR_DISTANCE (fst dpi) in
  map to_Q_point [(offset, offset); (w - offset, offset);
                  (offset, h - offset); (w - offset, h - offset)]%Z.

Section Alignment.

Context {image : Type} (cv : opencv image).

Definition region_confidence (img marker : image) (r : Z * Z * Z * Z) : Q :=
  let '(x1, y1, x2, y2) := r in fst (match_template cv (crop cv img x1 y1 x2 y2) marker).

(** The loop over the four search regions; [None] is the early
    [return image]. *)
Fixpoint find_markers (img marker : image) (regions : list (Z * Z * Z * Z))
  : option (list (Z * Z)) :=
  match regions with
  | [] => Some []
  | (x1, y1, x2, y2) :: rest =>
      let '(confidence, (lx, ly)) := match_template cv (crop cv img x1 y1 x2 y2) marker in
      if Qltb confidence THRESHOLD_CIRCLE then None
      else
        let '(mh, mw) := image_shape cv marker in
        match find_markers img marker rest with
        | None => None
        | Some centers => Some ((x1 + lx + mw / 2, y1 + ly + mh / 2)%Z :: centers)
        end
  end.

Definition alignment_marker (marker_template : image) (dpi : Q * Q) : image :=
  prepare_marker cv marker_template (point_to_pixel (ANCHOR_RADIUS * 2) (fst dpi)).

Definition align_image_with_markers (img marker_template : image) (dpi : Q * Q) : image :=
  let marker := alignment_marker marker_template dpi in
  let '(h, w) := image_shape cv img in
  match find_markers img marker (search_regions w h) with
  | None => img
  | Some centers => warp cv img (map to_Q_point centers) (target_points w h dpi) (w, h)
  end.

End Alignment.

(** ** The bubble box of detect_bubble_values

    [offset] is [BUBBLE_RADIUS / math.sqrt(2)], an irrational float kept as
    a parameter.  The box is [(left_, top, right_, bottom)] after clamping
    with [max(0, .)] and [min(image.shape[.], .)]. *)
Definition bubble_box (shape : Z * Z) (offset : Q) (dpi : Q * Q) (x y : Q) : Z * Z * Z * Z :=
  let '(h, w) := shape in
  (Z.max 0 (point_to_pixel (x - offset) (fst dpi)),
   Z.max 0 (point_to_pixel (y - offset) (snd dpi)),
   Z.min w (point_to_pixel (x + offset) (fst dpi)),
   Z.min h (point_to_pixel (y + offset) (snd dpi)))%Z.

(** A slice bound [i] of numpy's [a[i:j]] on an axis of length [n]: a
    negative bound counts from the end, then the bound is clipped to
    [0..n]. *)
Definition np_index (i n : Z) : Z :=
  if (i <? 0)%Z then Z.max 0 (i + n) else Z.min i n.

Definition slice_length (i j n : Z) : Z := Z.max 0 (np_index j n - np_index i n).

(** The intensity read for a bubble: [cv2.mean] of the region
    [image[top:bottom, left:right]] when it has pixels, 255 otherwise.
    [mean (r0, r1, c0, c1)] is the mean over rows [r0..r1-1] and columns
    [c0..c1-1] of the aligned image of shape [(h, w)]. *)
Definition box_intensity (mean : Z * Z * Z * Z -> Q) (shape : Z * Z)
  (box : Z * Z * Z * Z) : Q :=
  let '(h, w) := shape in
  let '(left_, top, right_, bottom) := box in
  if (0 <? slice_length top bottom h * slice_length left_ right_ w)%Z
  then mean (np_index top h, np_index bottom h, np_index left_ w, np_index right_ w)
  else 255.

Definition bubble_sample (mean : Z * Z * Z * Z -> Q) (shape : Z * Z) (offset : Q)
  (dpi : Q * Q) (row : bubble_row) : Q :=
  box_intensity mean shape (bubble_box shape offset dpi (row_Xpos row) (row_Ypos row)).

Open Scope string_scope.

(** ** process_directory: grouping the image files of a directory *)

(** [s.rfind(c)]; [None] stands for Python's [-1]. *)
Fixpoint py_rfind_aux (c : ascii) (s : string) (i : nat) (found : option nat) : option nat :=
  match s with
  | EmptyString => found
  | String a s' => py_rfind_aux c s' (S i) (if Ascii.eqb a c then Some i else found)
  end.

Definition py_rfind (c : ascii) (s : string) : option nat := py_rfind_aux c s 0 None.

(** [Path(p).name] of a path as returned by [glob]. *)
Definition path_name (p : string) : string := last (py_split "/"%char p) EmptyString.

(** [Path(p).stem]: [name[:i]] for [i = name.rfind('.')] when
    [0 < i < len(name) - 1], the whole name otherwise. *)
Definition path_stem (p : string) : string :=
  let name := path_name p in
  match py_rfind "."%char name with
  | Some i =>
      if (0 <? i)%nat && (i <? String.length name - 1)%nat
      then substring 0 i name else name
  | None => name
  end.

(** [student_id = image_path.stem.split("_")[0]] in process_single_image. *)
Definition path_student_id (image_path : string) : string :=
  nth 0 (py_split "_"%char (path_stem image_path)) EmptyString.

(** The grouping key [f"{student_id}_{page_part}"] of a file, [None] when
    its stem has fewer than two [_]-separated parts (the file is skipped). *)
Definition file_key (image_path : string) : option string :=
  match py_split "_"%char (path_stem image_path) with
  | student_id :: page_part :: _ => Some (student_id ++ "_" ++ page_part)
  | _ => None
  end.

(** The files that [len(parts) >= 2] keeps. *)
Definition has_key (p : string) : bool := if file_key p then true else false.

(** The [student_files] dict built from the sorted [image_files]. *)
Fixpoint group_files (image_files : list string) (student_files : list (string * list string))
  : list (string * list string) :=
  match image_files with
  | [] => student_files
  | image_path :: rest =>
      match file_key image_path with
      | Some student_page_key =>
          let old := match dict_get String.eqb student_page_key student_files with
                     | Some l => l
                     | None => []
                     end in
          group_files rest
            (dict_set String.eqb student_page_key (old ++ [image_path])%list student_files)
      | None => group_files rest student_files
      end
  end.

(** One iteration of the per-group loop: [file_list.sort()],
    [student_id = student_page_key.split("_")[0]] and
    [main_file = file_list[0]]; [None] stands for the [IndexError]. *)
Definition group_job (group : string * list string) : option (string * string * list string) :=
  let file_list := sorted_str (snd group) in
  match file_list with
  | [] => None
  | main_file :: _ => Some (nth 0 (py_split "_"%char (fst group)) EmptyString, main_file, file_list)
  end.

Definition directory_jobs (image_files : list string) : list (option (string * string * list string)) :=
  map group_job (group_files (sorted_str image_files) []).

(** [overlay_images[student_id] = all_pages] over the jobs, where
    [render main_file file_list] is [None] when process_single_image
    returns [None] and the list of cropped pages otherwise. *)
Fixpoint overlay_images {P : Type} (render : string -> list string -> option P)
  (jobs : list (option (string * string * list string))) (acc : list (string * P))
  : option (list (string * P)) :=
  match jobs with
  | [] => Some acc
  | None :: _ => None
  | Some (student_id, main_file, file_list) :: rest =>
      match render main_file file_list with
      | Some pages => overlay_images render rest (dict_set String.eqb student_id pages acc)
      | None => overlay_images render rest acc
      end
  end.

(** ** Auxiliary definitions for the statements and concrete runs *)

(** The (question, position, symbol) a bubble item records into
    [numeric_bubbles] when the position is still free: numeric keys whose
    symbol is D/S or whose bubble is marked. *)
Definition recorded_digit (threshold : Q) (kv : string * Q) : option (string * Z * string) :=
  match py_split "_"%char (fst kv) with
  | [question_subquestion; choice] =>
      if is_numeric_code choice then
        match py_int_of_string (nth 1 (py_split "-"%char choice) EmptyString) with
        | Some position =>
            let digit_value := nth 2 (py_split "-"%char choice) EmptyString in
            if is_DS digit_value || is_marked (snd kv) threshold
            then Some (question_subquestion, position, digit_value)
            else None
        | None => None
        end
      else None
  | _ => None
  end.

(** The symbol of the first item of [items] recording at [(question, position)]. *)
Fixpoint first_recorded (threshold : Q) (items : list (string * Q)) (question : string)
  (position : Z) : option string :=
  match items with
  | [] => None
  | kv :: rest =>
      match recorded_digit threshold kv with
      | Some (q, p, d) =>
          if String.eqb question q && Z.eqb position p then Some d
          else first_recorded threshold rest question position
      | None => first_recorded threshold rest question position
      end
  end.

(** [numeric_bubbles[question][position]] *)
Definition numeric_symbol (numeric : list (string * list (Z * string))) (question : string)
  (position : Z) : option string :=
  match dict_get String.eqb question numeric with
  | Some m => dict_get Z.eqb position m
  | None => None
  end.

(** The update of [numeric_bubbles] by one recording item. *)
Definition record_digit (question : string) (position : Z) (digit : string)
  (numeric : list (string * list (Z * string))) : list (string * list (Z * string)) :=
  let inner := match dict_get String.eqb question numeric with Some m => m | None => [] end in
  let inner := match dict_get Z.eqb position inner with
               | Some _ => inner
               | None => dict_set Z.eqb position digit inner
               end in
  dict_set String.eqb question inner numeric.

Definition pos_le (a b : Z * string) : Prop := (fst a <= fst b)%Z.

Definition str_le (a b : string) : Prop := String.leb a b = true.

Definition two_choice_answers : answer_table := [("abc123", [("3.i", ["c"; "a"])])].

(** Two marked digit bubbles, 1 then 7, at position 0 of question 1.i. *)
Definition two_digits_same_position : list (string * Q) :=
  [("1.i_1-0-1", 40); ("1.i_1-0-7", 45); ("1.i_1-0-3", 240)].

Definition empty_loop_state : loop_state :=
  {| ls_results := []; ls_numeric := []; ls_regular := [] |}.

(** A toy image model: an image is a number, every match has confidence 1/2. *)
Definition toy_cv : opencv Z := {|
  image_shape := fun _ => (400%Z, 300%Z);
  crop := fun i _ _ _ _ => i;
  prepare_marker := fun i _ => i;
  match_template := fun _ _ => (1 # 2, (0%Z, 0%Z));
  warp := fun i _ _ _ => (i + 1)%Z
|}.

(** A bubble row of the position table. *)
Definition mk_row (page : Z) (question subquestion choice : string) : bubble_row :=
  {| row_page := page; row_question := question; row_subquestion := subquestion;
     row_choice := choice; row_Xpos := 0; row_Ypos := 0 |}.

(** Page 1 with a decimal-point position of question 1.i and one
    multiple-choice bubble. *)
Definition decimal_page_rows : list bubble_row :=
  [mk_row 1 "1-1-D" "i" "e"; mk_row 1 "1" "i" "a"].

(** Question 1.i has multiple-choice bubbles a and b on page 1, and on
    page 2 the choice e paired with the numeric group 1-0-*. *)
Definition two_page_rows : list bubble_row :=
  [mk_row 1 "1" "i" "a"; mk_row 1 "1" "i" "b";
   mk_row 2 "1" "i" "e"; mk_row 2 "1-0-5" "i" "e"].

(** Student s fills a on page 1 and e on page 2, no digit. *)
Definition two_page_sample (r : bubble_row) : Q :=
  if String.eqb (row_choice r) "b" then 250
  else if String.eqb (row_question r) "1-0-5" then 250
  else 50.

Definition run_two_pages : option (results_table * answer_table) :=
  match process_single_image two_page_sample "s" 1 two_page_rows [] [] with
  | Some (results, answers) =>
      process_single_image two_page_sample "s" 2 two_page_rows results answers
  | None => None
  end.

(** The (question, choice) a bubble item appends to [regular_bubbles]: a
    marked bubble whose key splits into two parts, the second not a numeric
    code. *)
Definition regular_choice (threshold : Q) (kv : string * Q) : option (string * string) :=
  match py_split "_"%char (fst kv) with
  | [question_subquestion; choice] =>
      if is_numeric_code choice then None
      else if is_marked (snd kv) threshold then Some (question_subquestion, choice)
      else None
  | _ => None
  end.

(** The choices the items append for [question], in iteration order. *)
Fixpoint marked_choices (threshold : Q) (items : list (string * Q)) (question : string)
  : list string :=
  match items with
  | [] => []
  | kv :: rest =>
      match regular_choice threshold kv with
      | Some (q, c) =>
          if String.eqb question q then c :: marked_choices threshold rest question
          else marked_choices threshold rest question
      | None => marked_choices threshold rest question
      end
  end.

(** Python's [<=] on the sort keys of two keyed questions: not greater. *)
Definition key_le (a b : (Z * string) * string) : Prop := key_ltb (fst b) (fst a) = false.

(** * Proofs *)

(** ** Boolean comparisons *)

Lemma Qltb_iff : forall a b, Qltb a b = true <-> a < b.
Proof.
  intros a b; unfold Qltb; split; intro H.
  - apply Qnot_le_lt; intro Hle; apply Qle_bool_iff in Hle; rewrite Hle in H;
      discriminate.
  - destruct (Qle_bool b a) eqn:E; [|reflexivity].
    apply Qle_bool_iff in E; exfalso; exact (Qlt_not_le _ _ H E).
Qed.

Lemma Qltb_false : forall a b, Qltb a b = false -> b <= a.
Proof.
  intros a b H; apply Qnot_lt_le; intro Hlt; apply Qltb_iff in Hlt; congruence.
Qed.

Lemma py_min_Qmin : forall a b, py_min a b == Qmin a b.
Proof.
  intros a b; unfold py_min; destruct (Qltb b a) eqn:E.
  - apply Qltb_iff in E; symmetry; apply Q.min_r; apply Qlt_le_weak; exact E.
  - apply Qltb_false in E; symmetry; apply Q.min_l; exact E.
Qed.

(** ** Python's [sorted] on floats *)

Lemma insert_q_perm : forall x l, Permutation (x :: l) (insert_q x l).
Proof.
  intros x l; induction l as [|y t IH]; simpl; [reflexivity|].
  destruct (Qle_bool x y); [reflexivity|].
  transitivity (y :: x :: t); [apply perm_swap|constructor; exact IH].
Qed.

Lemma sorted_q_perm : forall l, Permutation l (sorted_q l).
Proof.
  induction l as [|x t IH]; simpl; [reflexivity|].
  transitivity (x :: sorted_q t); [constructor; exact IH|apply insert_q_perm].
Qed.

Lemma insert_q_hdrel : forall x y l,
  HdRel Qle y l -> y <= x -> HdRel Qle y (insert_q x l).
Proof.
  intros x y [|z t] Hh Hyx; simpl.
  - constructor; exact Hyx.
  - destruct (Qle_bool x z); constructor; [exact Hyx|].
    inversion Hh; assumption.
Qed.

Lemma insert_q_sorted : forall x l, Sorted Qle l -> Sorted Qle (insert_q x l).
Proof.
  intros x l; induction l as [|y t IH]; intro Hs; simpl.
  - repeat constructor.
  - destruct (Qle_bool x y) eqn:E.
    + constructor; [exact Hs|constructor; apply Qle_bool_iff; exact E].
    + inversion Hs as [|? ? Ht Hh]; subst.
      constructor; [apply IH; exact Ht|].
      apply insert_q_hdrel; [exact Hh|].
      apply Qnot_lt_le; intro Hlt; apply Qlt_le_weak in Hlt.
      apply Qle_bool_iff in Hlt; congruence.
Qed.

Lemma sorted_q_sorted : forall l, Sorted Qle (sorted_q l).
Proof.
  induction l as [|x t IH]; simpl; [constructor|apply insert_q_sorted; exact IH].
Qed.

Lemma sum_q_perm : forall l l', Permutation l l' -> sum_q l == sum_q l'.
Proof.
  intros l l' Hp; induction Hp; simpl.
  - reflexivity.
  - rewrite IHHp; reflexivity.
  - ring.
  - rewrite IHHp1; exact IHHp2.
Qed.

Lemma np_mean_perm : forall l l', Permutation l l' -> np_mean l == np_mean l'.
Proof.
  intros l l' Hp; unfold np_mean.
  rewrite (sum_q_perm _ _ Hp), (Permutation_length Hp); reflexivity.
Qed.

(** ** The gap scan *)

Lemma andb_Qltb_false : forall a b c d,
  Qltb a b && Qltb c d = false -> ~ (a < b /\ c < d).
Proof.
  intros a b c d H [H1 H2]; apply Qltb_iff in H1; apply Qltb_iff in H2;
    rewrite H1, H2 in H; discriminate.
Qed.

(** Either the scan never updates, or it ends on the first pair whose gap is
    the largest among the gaps exceeding both [MIN_JUMP] and the initial
    [max_gap]. *)
Lemma gap_scan_spec : forall rest prev m thr,
  (gap_scan prev rest m thr = (m, thr) /\
   forall c d, In (c, d) (consecutive_pairs (prev :: rest)) ->
     ~ (MIN_JUMP < d - c /\ m < d - c))
  \/
  (exists i a b,
     nth_error (consecutive_pairs (prev :: rest)) i = Some (a, b) /\
     MIN_JUMP < b - a /\ m < b - a /\
     gap_scan prev rest m thr = (b - a, (b + a) / 2) /\
     (forall j c d, nth_error (consecutive_pairs (prev :: rest)) j = Some (c, d) ->
        MIN_JUMP < d - c -> m < d - c -> d - c <= b - a) /\
     (forall j c d, (j < i)%nat ->
        nth_error (consecutive_pairs (prev :: rest)) j = Some (c, d) ->
        MIN_JUMP < d - c -> m < d - c -> d - c < b - a)).
Proof.
  induction rest as [|x t IH]; intros prev m thr.
  - left; split; [reflexivity|]; intros c d Hin; destruct Hin.
  - change (consecutive_pairs (prev :: x :: t))
      with ((prev, x) :: consecutive_pairs (x :: t)).
    simpl gap_scan.
    destruct (Qltb MIN_JUMP (x - prev) && Qltb m (x - prev)) eqn:E.
    + apply andb_true_iff in E; destruct E as [E1 E2].
      apply Qltb_iff in E1; apply Qltb_iff in E2.
      destruct (IH x (x - prev) ((x + prev) / 2)) as [[Hs Hno]|Hyes].
      * right; exists 0%nat, prev, x.
        split; [reflexivity|]; split; [exact E1|]; split; [exact E2|].
        split; [exact Hs|]; split.
        -- intros [|j] c d Hn Hj Hm; simpl in Hn.
           ++ injection Hn as <- <-; apply Qle_refl.
           ++ apply nth_error_In in Hn; apply Qnot_lt_le; intro Hlt;
                exact (Hno c d Hn (conj Hj Hlt)).
        -- intros j c d Hj; lia.
      * destruct Hyes as (i & a & b & Hn & H1 & H2 & Hs & Hall & Hfirst).
        right; exists (S i), a, b.
        split; [exact Hn|]; split; [exact H1|]; split; [apply (Qlt_trans _ _ _ E2 H2)|].
        split; [exact Hs|]; split.
        -- intros [|j] c d Hn' Hj Hm; simpl in Hn'.
           ++ injection Hn' as <- <-; apply Qlt_le_weak; exact H2.
           ++ destruct (Qlt_le_dec (x - prev) (d - c)) as [Hlt|Hle].
              ** exact (Hall j c d Hn' Hj Hlt).
              ** apply Qle_trans with (x - prev); [exact Hle|apply Qlt_le_weak; exact H2].
        -- intros [|j] c d Hj Hn' Hj' Hm; simpl in Hn'.
           ++ injection Hn' as <- <-; exact H2.
           ++ destruct (Qlt_le_dec (x - prev) (d - c)) as [Hlt|Hle].
              ** apply (Hfirst j c d); [lia|exact Hn'|exact Hj'|exact Hlt].
              ** apply Qle_lt_trans with (x - prev); [exact Hle|exact H2].
    + apply andb_Qltb_false in E.
      destruct (IH x m thr) as [[Hs Hno]|Hyes].
      * left; split; [exact Hs|].
        intros c d [Heq|Hin].
        -- injection Heq as <- <-; exact E.
        -- exact (Hno c d Hin).
      * destruct Hyes as (i & a & b & Hn & H1 & H2 & Hs & Hall & Hfirst).
        right; exists (S i), a, b.
        do 4 (split; [assumption|]); split.
        -- intros [|j] c d Hn' Hj Hm; simpl in Hn'.
           ++ injection Hn' as <- <-; exfalso; exact (E (conj Hj Hm)).
           ++ exact (Hall j c d Hn' Hj Hm).
        -- intros [|j] c d Hj Hn' Hj' Hm; simpl in Hn'.
           ++ injection Hn' as <- <-; exfalso; exact (E (conj Hj' Hm)).
           ++ apply (Hfirst j c d); [lia|exact Hn'|exact Hj'|exact Hm].
Qed.

(** ** Concrete runs of calculate_threshold *)

Example calculate_threshold_docstring :
  calculate_threshold [50; 55; 60; 180; 185; 190] == 120.
Proof. vm_compute. reflexivity. Qed.

Example calculate_threshold_all_128 : calculate_threshold [128; 128; 128] == 128.
Proof. vm_compute. reflexivity. Qed.

(** ** C1 *)

(** C1 (counterexample): on [[220; 250]] the only gap, 30, exceeds
    [MIN_JUMP], its midpoint is 235, yet [calculate_threshold] returns 210:
    the midpoint is clamped to [GLOBAL_THRESHOLD]. *)
Lemma C1_counterexample :
  consecutive_pairs (sorted_q [220; 250]) = [(220, 250)] /\
  MIN_JUMP < 250 - 220 /\
  ~ (calculate_threshold [220; 250] == (220 + 250) / 2).
Proof.
  split; [reflexivity|]; split; [reflexivity|].
  intro H; vm_compute in H; discriminate.
Qed.

(** C1 (amended): when some consecutive pair of the ascending sort of the
    values has a gap above [MIN_JUMP] (25), [calculate_threshold] returns the
    midpoint of the first consecutive pair whose gap is the largest, clamped
    to at most [GLOBAL_THRESHOLD] (210). *)
Theorem calculate_threshold_largest_gap : forall values,
  (exists c d, In (c, d) (consecutive_pairs (sorted_q values)) /\ MIN_JUMP < d - c) ->
  Sorted Qle (sorted_q values) /\ Permutation values (sorted_q values) /\
  exists i a b,
    nth_error (consecutive_pairs (sorted_q values)) i = Some (a, b) /\
    MIN_JUMP < b - a /\
    (forall j c d, nth_error (consecutive_pairs (sorted_q values)) j = Some (c, d) ->
       d - c <= b - a) /\
    (forall j c d, (j < i)%nat ->
       nth_error (consecutive_pairs (sorted_q values)) j = Some (c, d) -> d - c < b - a) /\
    calculate_threshold values == Qmin ((a + b) / 2) GLOBAL_THRESHOLD.
Proof.
  intros values (c0 & d0 & Hin0 & Hgap0).
  split; [apply sorted_q_sorted|]; split; [apply sorted_q_perm|].
  destruct values as [|v vs]; [simpl in Hin0; destruct Hin0|].
  unfold calculate_threshold.
  destruct (sorted_q (v :: vs)) as [|h t] eqn:Hs; [simpl in Hin0; destruct Hin0|].
  assert (Hpos : forall c d, MIN_JUMP < d - c -> 0 < d - c).
  { intros c d H; apply Qlt_trans with MIN_JUMP; [reflexivity|exact H]. }
  destruct (gap_scan_spec t h 0 (py_min 200 GLOBAL_THRESHOLD)) as [[_ Hno]|Hyes].
  - exfalso; exact (Hno c0 d0 Hin0 (conj Hgap0 (Hpos _ _ Hgap0))).
  - destruct Hyes as (i & a & b & Hn & H1 & H2 & Hscan & Hall & Hfirst).
    exists i, a, b.
    split; [exact Hn|]; split; [exact H1|]; split; [|split].
    + intros j c d Hn'.
      destruct (Qlt_le_dec MIN_JUMP (d - c)) as [Hj|Hj].
      * exact (Hall j c d Hn' Hj (Hpos _ _ Hj)).
      * apply Qle_trans with MIN_JUMP; [exact Hj|apply Qlt_le_weak; exact H1].
    + intros j c d Hij Hn'.
      destruct (Qlt_le_dec MIN_JUMP (d - c)) as [Hj|Hj].
      * exact (Hfirst j c d Hij Hn' Hj (Hpos _ _ Hj)).
      * apply Qle_lt_trans with MIN_JUMP; [exact Hj|exact H1].
    + rewrite Hscan.
      assert (Hz : Qeq_bool (b - a) 0 = false).
      { destruct (Qeq_bool (b - a) 0) eqn:E; [|reflexivity].
        apply Qeq_bool_iff in E; rewrite E in H2; discriminate. }
      rewrite Hz, py_min_Qmin.
      assert (Hm : (b + a) / 2 == (a + b) / 2) by (rewrite Qplus_comm; reflexivity).
      rewrite Hm; reflexivity.
Qed.

(** Witness of C1 on the docstring's example. *)
Lemma calculate_threshold_largest_gap_witness :
  (exists c d, In (c, d) (consecutive_pairs (sorted_q [50; 55; 60; 180; 185; 190])) /\
     MIN_JUMP < d - c) /\
  Sorted Qle (sorted_q [50; 55; 60; 180; 185; 190]) /\
  Permutation [50; 55; 60; 180; 185; 190] (sorted_q [50; 55; 60; 180; 185; 190]) /\
  exists i a b,
    nth_error (consecutive_pairs (sorted_q [50; 55; 60; 180; 185; 190])) i = Some (a, b) /\
    MIN_JUMP < b - a /\
    (forall j c d,
       nth_error (consecutive_pairs (sorted_q [50; 55; 60; 180; 185; 190])) j = Some (c, d) ->
       d - c <= b - a) /\
    (forall j c d, (j < i)%nat ->
       nth_error (consecutive_pairs (sorted_q [50; 55; 60; 180; 185; 190])) j = Some (c, d) ->
       d - c < b - a) /\
    calculate_threshold [50; 55; 60; 180; 185; 190] == Qmin ((a + b) / 2) GLOBAL_THRESHOLD.
Proof.
  assert (H : exists c d,
    In (c, d) (consecutive_pairs (sorted_q [50; 55; 60; 180; 185; 190])) /\
    MIN_JUMP < d - c).
  { exists 60, 180; split; [simpl; tauto|reflexivity]. }
  split; [exact H|].
  exact (calculate_threshold_largest_gap [50; 55; 60; 180; 185; 190] H).
Defined.

(** ** C5 *)

(** C5: when no consecutive pair of the sorted values differs by more than
    [MIN_JUMP], [calculate_threshold] of a non-empty list is the arithmetic
    mean of the values, clamped to at most [GLOBAL_THRESHOLD]. *)
Theorem calculate_threshold_mean_fallback : forall values,
  values <> [] ->
  (forall c d, In (c, d) (consecutive_pairs (sorted_q values)) -> d - c <= MIN_JUMP) ->
  calculate_threshold values == Qmin (np_mean values) GLOBAL_THRESHOLD.
Proof.
  intros values Hne Hsmall.
  destruct values as [|v vs]; [congruence|].
  pose proof (sorted_q_perm (v :: vs)) as Hp.
  unfold calculate_threshold.
  destruct (sorted_q (v :: vs)) as [|h t] eqn:Hs.
  - apply Permutation_sym, Permutation_nil in Hp; discriminate.
  - destruct (gap_scan_spec t h 0 (py_min 200 GLOBAL_THRESHOLD)) as [[Hscan _]|Hyes].
    + rewrite Hscan; simpl Qeq_bool; cbv iota beta.
      rewrite py_min_Qmin, (np_mean_perm _ _ Hp); reflexivity.
    + destruct Hyes as (i & a & b & Hn & H1 & _).
      apply nth_error_In in Hn; apply Hsmall in Hn.
      exfalso; exact (Qlt_not_le _ _ H1 Hn).
Qed.

(** Witness of C5: all values equal to 128. *)
Lemma calculate_threshold_mean_fallback_witness :
  ([128; 128; 128] <> [] /\
   forall c d, In (c, d) (consecutive_pairs (sorted_q [128; 128; 128])) ->
     d - c <= MIN_JUMP) /\
  calculate_threshold [128; 128; 128] == Qmin (np_mean [128; 128; 128]) GLOBAL_THRESHOLD.
Proof.
  assert (Hne : [128; 128; 128] <> []) by discriminate.
  assert (Hs : forall c d, In (c, d) (consecutive_pairs (sorted_q [128; 128; 128])) ->
                 d - c <= MIN_JUMP).
  { intros c d Hin; simpl in Hin.
    destruct Hin as [Hin|[Hin|[]]]; injection Hin as <- <-; vm_compute; discriminate. }
  split; [split; [exact Hne|exact Hs]|].
  exact (calculate_threshold_mean_fallback [128; 128; 128] Hne Hs).
Defined.

(** ** C3 *)

Lemma is_marked_iff : forall value threshold,
  is_marked value threshold = true <-> value < threshold /\ value < GLOBAL_THRESHOLD.
Proof.
  intros value threshold; unfold is_marked; rewrite andb_true_iff, !Qltb_iff;
    reflexivity.
Qed.

(** C3: a bubble whose key is not a decimal/slash position is marked, both
    for the answers and for the overlay box, exactly when its intensity is
    strictly below the threshold and strictly below [GLOBAL_THRESHOLD]; at
    or above the threshold it is never marked. *)
Theorem bubble_marked_iff_below_both : forall key value threshold,
  is_decimal_slash key = false ->
  (is_marked value threshold = true <->
     value < threshold /\ value < GLOBAL_THRESHOLD) /\
  (overlay_mark_of key value threshold = Marked_box <->
     value < threshold /\ value < GLOBAL_THRESHOLD) /\
  (threshold <= value ->
     is_marked value threshold = false /\
     overlay_mark_of key value threshold = Unmarked_box).
Proof.
  intros key value threshold Hkey.
  assert (Hov : overlay_mark_of key value threshold =
                if is_marked value threshold then Marked_box else Unmarked_box).
  { unfold overlay_mark_of; rewrite Hkey; reflexivity. }
  split; [apply is_marked_iff|]; split.
  - rewrite Hov, <- is_marked_iff.
    destruct (is_marked value threshold); split; congruence.
  - intro Hle.
    assert (Hf : is_marked value threshold = false).
    { destruct (is_marked value threshold) eqn:E; [|reflexivity].
      apply is_marked_iff in E; destruct E as [E _].
      exfalso; exact (Qlt_not_le _ _ E Hle). }
    rewrite Hov, Hf; split; reflexivity.
Qed.

(** Witness of C3 on the multiple-choice key ["1.i_a"]. *)
Lemma bubble_marked_iff_below_both_witness :
  is_decimal_slash "1.i_a" = false /\
  (is_marked 50 120 = true <-> 50 < 120 /\ 50 < GLOBAL_THRESHOLD) /\
  (overlay_mark_of "1.i_a" 50 120 = Marked_box <-> 50 < 120 /\ 50 < GLOBAL_THRESHOLD) /\
  (120 <= 50 -> is_marked 50 120 = false /\ overlay_mark_of "1.i_a" 50 120 = Unmarked_box).
Proof.
  assert (H : is_decimal_slash "1.i_a" = false) by reflexivity.
  split; [exact H|exact (bubble_marked_iff_below_both "1.i_a" 50 120 H)].
Defined.

(** ** C4 *)

(** C4 (counterexample): [point_to_pixel (-1) 1] truncates
    [-1/72.27] toward zero and gives 0, while its floor is -1. *)
Lemma C4_counterexample :
  point_to_pixel (-1) 1 = 0%Z /\
  Qfloor ((-1) * 1 / (7227 # 100)) = (-1)%Z /\
  point_to_pixel (-1) 1 <> Qfloor ((-1) * 1 / (7227 # 100)).
Proof. vm_compute. split; [reflexivity|split; [reflexivity|discriminate]]. Qed.

(** C4 (amended): [point_to_pixel value dpi] truncates
    [value * dpi / 72.27] toward zero: it is the floor when that quotient
    is non-negative and the ceiling when it is negative. *)
Theorem point_to_pixel_truncates : forall value dpi,
  let x := value * dpi / (7227 # 100) in
  point_to_pixel value dpi = (if Qle_bool 0 x then Qfloor x else Qceiling x).
Proof.
  intros value dpi x; unfold point_to_pixel, py_int; fold x.
  destruct x as [n d]; simpl Qnum; simpl Qden.
  destruct (Qle_bool 0 (n # d)) eqn:E.
  - apply Qle_bool_iff in E; unfold Qle in E; simpl in E.
    unfold Qfloor; apply Z.quot_div_nonneg; lia.
  - assert (Hn : (n < 0)%Z).
    { destruct (Z_lt_le_dec n 0) as [Hlt|Hge]; [exact Hlt|].
      exfalso; assert (Hq : 0 <= n # d) by (unfold Qle; simpl; lia).
      apply Qle_bool_iff in Hq; congruence. }
    unfold Qceiling, Qfloor; simpl.
    rewrite <- (Z.opp_involutive n) at 1.
    rewrite Z.quot_opp_l by lia.
    rewrite Z.quot_div_nonneg by lia.
    reflexivity.
Qed.

(** ** Strings *)

Lemma string_append_assoc : forall a b c : string,
  (a ++ (b ++ c))%string = ((a ++ b) ++ c)%string.
Proof. induction a as [|ch a IH]; intros b c; simpl; [reflexivity|rewrite IH; reflexivity]. Qed.

Lemma string_append_empty_r : forall a : string, (a ++ EmptyString)%string = a.
Proof. induction a as [|ch a IH]; simpl; [reflexivity|rewrite IH; reflexivity]. Qed.

Lemma concat_empty_cons : forall (x : string) (l : list string),
  String.concat EmptyString (x :: l) = (x ++ String.concat EmptyString l)%string.
Proof.
  intros x [|y l]; simpl; [symmetry; apply string_append_empty_r|reflexivity].
Qed.

Lemma fold_left_append : forall (f : Z * string -> string) l acc,
  fold_left (fun acc pd => (acc ++ f pd)%string) l acc =
  (acc ++ String.concat EmptyString (map f l))%string.
Proof.
  intros f l; induction l as [|x t IH]; intro acc; simpl fold_left.
  - simpl; symmetry; apply string_append_empty_r.
  - rewrite IH; simpl map; rewrite concat_empty_cons, string_append_assoc;
      reflexivity.
Qed.

(** ** Sorting the positions of a numeric question *)

Lemma insert_pos_perm : forall x l, Permutation (x :: l) (insert_pos x l).
Proof.
  intros x l; induction l as [|y t IH]; simpl; [reflexivity|].
  destruct (pos_ltb y x); [|reflexivity].
  transitivity (y :: x :: t); [apply perm_swap|constructor; exact IH].
Qed.

Lemma sorted_positions_perm : forall l, Permutation l (sorted_positions l).
Proof.
  induction l as [|x t IH]; simpl; [reflexivity|].
  transitivity (x :: sorted_positions t); [constructor; exact IH|apply insert_pos_perm].
Qed.

Lemma pos_ltb_le : forall a b, pos_ltb a b = true -> pos_le a b.
Proof.
  intros [a da] [b db]; unfold pos_ltb, pos_le; simpl.
  rewrite orb_true_iff, andb_true_iff, Z.ltb_lt, Z.eqb_eq; lia.
Qed.

Lemma pos_ltb_false_le : forall a b, pos_ltb a b = false -> pos_le b a.
Proof.
  intros [a da] [b db]; unfold pos_ltb, pos_le; simpl.
  rewrite orb_false_iff, Z.ltb_ge; lia.
Qed.

Lemma insert_pos_sorted : forall x l,
  Sorted pos_le l -> Sorted pos_le (insert_pos x l).
Proof.
  intros x l; induction l as [|y t IH]; intro Hs; simpl.
  - repeat constructor.
  - destruct (pos_ltb y x) eqn:E.
    + inversion Hs as [|? ? Ht Hh]; subst.
      constructor; [apply IH; exact Ht|].
      destruct t as [|z t]; simpl; [constructor; apply pos_ltb_le; exact E|].
      destruct (pos_ltb z x); constructor; [inversion Hh; assumption|].
      apply pos_ltb_le; exact E.
    + constructor; [exact Hs|constructor; apply pos_ltb_false_le; exact E].
Qed.

Lemma sorted_positions_sorted : forall l, Sorted pos_le (sorted_positions l).
Proof.
  induction l as [|x t IH]; simpl; [constructor|apply insert_pos_sorted; exact IH].
Qed.

Lemma strongly_sorted_strict : forall l,
  StronglySorted pos_le l -> NoDup (map fst l) ->
  StronglySorted (fun a b => (fst a < fst b)%Z) l.
Proof.
  induction l as [|x t IH]; intros Hs Hnd; [constructor|].
  inversion Hs as [|? ? Ht Hall]; subst.
  inversion Hnd as [|? ? Hnotin Hnd']; subst.
  constructor; [apply IH; assumption|].
  rewrite Forall_forall in Hall |- *; intros y Hy.
  specialize (Hall y Hy); unfold pos_le in Hall.
  destruct (Z.eq_dec (fst x) (fst y)) as [Heq|Hne]; [|lia].
  exfalso; apply Hnotin; rewrite Heq; apply in_map; exact Hy.
Qed.

(** ** C2 *)

(** C2: for the position map of a numeric question (distinct positions),
    when at least one recorded symbol is an actual digit (not D or S) the
    numeric answer is the concatenation, over the positions in strictly
    ascending order, of D mapped to ".", S to "/" and digits verbatim;
    when only D/S symbols are recorded, no numeric answer is produced. *)
Theorem numeric_answer_ascending : forall positions,
  NoDup (map fst positions) ->
  (existsb (fun pd => negb (is_DS (snd pd))) positions = true ->
   exists l, Permutation positions l /\
     StronglySorted (fun a b => (fst a < fst b)%Z) l /\
     numeric_answer positions =
       Some (String.concat EmptyString (map (fun pd => digit_symbol (snd pd)) l))) /\
  (existsb (fun pd => negb (is_DS (snd pd))) positions = false ->
   numeric_answer positions = None).
Proof.
  intros positions Hnd; split.
  - intro Hdig; exists (sorted_positions positions).
    pose proof (sorted_positions_perm positions) as Hp.
    split; [exact Hp|]; split.
    + apply strongly_sorted_strict.
      * apply Sorted_StronglySorted; [intros a b c; unfold pos_le; lia|].
        apply sorted_positions_sorted.
      * apply (Permutation_NoDup (Permutation_map fst Hp)); exact Hnd.
    + unfold numeric_answer; destruct positions as [|p ps]; [discriminate|].
      rewrite Hdig, fold_left_append; reflexivity.
  - intro Hno; unfold numeric_answer; destruct positions as [|p ps];
      [reflexivity|rewrite Hno; reflexivity].
Qed.

(** Witness of C2 on positions [{0:'1', 1:'D', 2:'5'}]. *)
Lemma numeric_answer_ascending_witness :
  NoDup (map fst [(0%Z, "1"); (1%Z, "D"); (2%Z, "5")]) /\
  (existsb (fun pd => negb (is_DS (snd pd))) [(0%Z, "1"); (1%Z, "D"); (2%Z, "5")] = true ->
   exists l, Permutation [(0%Z, "1"); (1%Z, "D"); (2%Z, "5")] l /\
     StronglySorted (fun a b => (fst a < fst b)%Z) l /\
     numeric_answer [(0%Z, "1"); (1%Z, "D"); (2%Z, "5")] =
       Some (String.concat EmptyString (map (fun pd => digit_symbol (snd pd)) l))) /\
  (existsb (fun pd => negb (is_DS (snd pd))) [(0%Z, "1"); (1%Z, "D"); (2%Z, "5")] = false ->
   numeric_answer [(0%Z, "1"); (1%Z, "D"); (2%Z, "5")] = None).
Proof.
  assert (H : NoDup (map fst [(0%Z, "1"); (1%Z, "D"); (2%Z, "5")])).
  { simpl; repeat constructor; simpl; intuition discriminate. }
  split; [exact H|exact (numeric_answer_ascending _ H)].
Defined.

Example numeric_answer_decimal :
  numeric_answer [(0%Z, "1"); (1%Z, "D"); (2%Z, "5")] = Some "1.5".
Proof. reflexivity. Qed.

Example numeric_answer_fraction :
  numeric_answer [(2%Z, "4"); (0%Z, "3"); (1%Z, "S")] = Some "3/4".
Proof. reflexivity. Qed.

Example numeric_answer_only_decimal : numeric_answer [(1%Z, "D")] = None.
Proof. reflexivity. Qed.

(** ** Dictionaries *)

Lemma dict_get_In : forall {K V : Type} (eqk : K -> K -> bool) k (d : list (K * V)) v,
  (forall a b, eqk a b = true -> a = b) ->
  dict_get eqk k d = Some v -> In (k, v) d.
Proof.
  intros K V eqk k d v Heq; induction d as [|[k' v'] t IH]; simpl; [discriminate|].
  destruct (eqk k k') eqn:E; intro H.
  - injection H as <-; apply Heq in E; subst; left; reflexivity.
  - right; apply IH; exact H.
Qed.

Lemma dict_get_map_In : forall {V : Type} (f : string -> V) k l,
  In k l -> dict_get String.eqb k (map (fun s => (s, f s)) l) = Some (f k).
Proof.
  intros V f k l; induction l as [|s t IH]; simpl; [intros []|].
  intros Hin; destruct (String.eqb k s) eqn:E.
  - apply String.eqb_eq in E; subst; reflexivity.
  - apply IH; destruct Hin as [Hin|Hin]; [subst; rewrite String.eqb_refl in E; discriminate|exact Hin].
Qed.

(** ** Python's [sorted] on strings *)

Lemma insert_str_perm : forall x l, Permutation (x :: l) (insert_str x l).
Proof.
  intros x l; induction l as [|y t IH]; simpl; [reflexivity|].
  destruct (String.leb x y); [reflexivity|].
  transitivity (y :: x :: t); [apply perm_swap|constructor; exact IH].
Qed.

Lemma sorted_str_perm : forall l, Permutation l (sorted_str l).
Proof.
  induction l as [|x t IH]; simpl; [reflexivity|].
  transitivity (x :: sorted_str t); [constructor; exact IH|apply insert_str_perm].
Qed.

Lemma leb_false_flip : forall a b, String.leb a b = false -> str_le b a.
Proof.
  intros a b H; unfold str_le; destruct (String.leb_total a b) as [H'|H'];
    [congruence|exact H'].
Qed.

Lemma insert_str_sorted : forall x l, Sorted str_le l -> Sorted str_le (insert_str x l).
Proof.
  intros x l; induction l as [|y t IH]; intro Hs; simpl.
  - repeat constructor.
  - destruct (String.leb x y) eqn:E.
    + constructor; [exact Hs|constructor; exact E].
    + inversion Hs as [|? ? Ht Hh]; subst.
      constructor; [apply IH; exact Ht|].
      destruct t as [|z t]; simpl; [constructor; apply leb_false_flip; exact E|].
      destruct (String.leb x z); constructor; [apply leb_false_flip; exact E|].
      inversion Hh; assumption.
Qed.

Lemma sorted_str_sorted : forall l, Sorted str_le (sorted_str l).
Proof.
  induction l as [|x t IH]; simpl; [constructor|apply insert_str_sorted; exact IH].
Qed.

(** ** The question columns of the consolidated table *)

Lemma add_unique_keeps : forall l acc x, In x acc -> In x (add_unique l acc).
Proof.
  induction l as [|y t IH]; intros acc x Hx; simpl; [exact Hx|].
  apply IH; destruct (existsb (String.eqb y) acc); [exact Hx|].
  apply in_or_app; left; exact Hx.
Qed.

Lemma add_unique_adds : forall l acc x, In x l -> In x (add_unique l acc).
Proof.
  induction l as [|y t IH]; intros acc x Hx; simpl; [destruct Hx|].
  destruct Hx as [->|Hx]; [|apply IH; exact Hx].
  apply add_unique_keeps; destruct (existsb (String.eqb x) acc) eqn:E.
  - apply existsb_exists in E; destruct E as [z [Hz Ez]].
    apply String.eqb_eq in Ez; subst; exact Hz.
  - apply in_or_app; right; left; reflexivity.
Qed.

Lemma fold_questions_keeps : forall (answers : answer_table) acc x,
  In x acc -> In x (fold_left (fun acc sa => add_unique (map fst (snd sa)) acc) answers acc).
Proof.
  induction answers as [|sa t IH]; intros acc x Hx; simpl; [exact Hx|].
  apply IH; apply add_unique_keeps; exact Hx.
Qed.

Lemma all_questions_In : forall answers sid m q,
  In (sid, m) answers -> In q (map fst m) -> In q (all_questions answers).
Proof.
  intros answers sid m q; unfold all_questions; generalize (@nil string).
  induction answers as [|sa t IH]; intros acc Hin Hq; simpl; [destruct Hin|].
  destruct Hin as [->|Hin].
  - apply fold_questions_keeps; apply add_unique_adds; exact Hq.
  - apply IH; assumption.
Qed.

Lemma keyed_questions_snd : forall qs kq, keyed_questions qs = Some kq -> map snd kq = qs.
Proof.
  induction qs as [|q t IH]; intros kq H; simpl in H.
  - injection H as <-; reflexivity.
  - destruct (question_sort_key q); [|discriminate].
    destruct (keyed_questions t) as [l|] eqn:E; [|discriminate].
    injection H as <-; simpl; rewrite (IH l eq_refl); reflexivity.
Qed.

Lemma insert_keyed_perm : forall x l, Permutation (x :: l) (insert_keyed x l).
Proof.
  intros x l; induction l as [|y t IH]; simpl; [reflexivity|].
  destruct (key_ltb (fst x) (fst y)); [reflexivity|].
  transitivity (y :: x :: t); [apply perm_swap|constructor; exact IH].
Qed.

Lemma sort_keyed_perm : forall l, Permutation l (sort_keyed l).
Proof.
  induction l as [|x t IH]; simpl; [reflexivity|].
  transitivity (x :: sort_keyed t); [constructor; exact IH|apply insert_keyed_perm].
Qed.

(** ** C7 *)

(** C7: in the written consolidated table, the cell of a student and a
    question with collected answer tokens is the comma-join of those
    tokens in ascending order. *)
Theorem consolidated_cell_sorted_join : forall answers columns rows sid m q choices,
  create_consolidated_output answers = Written columns rows ->
  dict_get String.eqb sid answers = Some m ->
  dict_get String.eqb q m = Some choices ->
  choices <> [] ->
  exists l, Permutation choices l /\ Sorted str_le l /\
    output_cell (Written columns rows) sid q = Some (comma_join l).
Proof.
  intros answers columns rows sid m q choices Hout Hsid Hq _.
  exists (sorted_str choices).
  split; [apply sorted_str_perm|]; split; [apply sorted_str_sorted|].
  assert (Hin : In (sid, m) answers)
    by (apply (dict_get_In String.eqb); [apply String.eqb_eq|exact Hsid]).
  assert (Hqin : In (q, choices) m)
    by (apply (dict_get_In String.eqb); [apply String.eqb_eq|exact Hq]).
  unfold create_consolidated_output in Hout.
  destruct answers as [|a0 rest]; [discriminate|].
  destruct (keyed_questions (all_questions (a0 :: rest))) as [kq|] eqn:Ekq;
    [|discriminate].
  injection Hout as <- <-.
  unfold output_cell.
  rewrite dict_get_map_In.
  - rewrite dict_get_map_In.
    + unfold consolidated_cell; rewrite Hsid, Hq; reflexivity.
    + apply (Permutation_in _ (Permutation_map snd (sort_keyed_perm kq))).
      rewrite (keyed_questions_snd _ _ Ekq).
      apply (all_questions_In _ sid m); [exact Hin|].
      apply (in_map fst) in Hqin; exact Hqin.
  - apply (Permutation_in (l := map fst (a0 :: rest))); [apply sorted_str_perm|].
    apply (in_map fst) in Hin; exact Hin.
Qed.

(** Witness of C7: choices c and a marked on question 3.i. *)
Lemma consolidated_cell_sorted_join_witness :
  (create_consolidated_output two_choice_answers =
     Written ["3.i"] [("abc123", [("3.i", "a,c")])] /\
   dict_get String.eqb "abc123" two_choice_answers = Some [("3.i", ["c"; "a"])] /\
   dict_get String.eqb "3.i" [("3.i", ["c"; "a"])] = Some ["c"; "a"] /\
   ["c"; "a"] <> []) /\
  exists l, Permutation ["c"; "a"] l /\ Sorted str_le l /\
    output_cell (Written ["3.i"] [("abc123", [("3.i", "a,c")])]) "abc123" "3.i" =
      Some (comma_join l).
Proof.
  assert (H1 : create_consolidated_output two_choice_answers =
                 Written ["3.i"] [("abc123", [("3.i", "a,c")])]) by reflexivity.
  assert (H2 : dict_get String.eqb "abc123" two_choice_answers =
                 Some [("3.i", ["c"; "a"])]) by reflexivity.
  assert (H3 : dict_get String.eqb "3.i" [("3.i", ["c"; "a"])] = Some ["c"; "a"])
    by reflexivity.
  assert (H4 : ["c"; "a"] <> []) by discriminate.
  split; [repeat split; assumption|].
  exact (consolidated_cell_sorted_join _ _ _ _ _ _ _ H1 H2 H3 H4).
Defined.

Example consolidated_a_c :
  output_cell (create_consolidated_output two_choice_answers) "abc123" "3.i" = Some "a,c".
Proof. reflexivity. Qed.

(** ** The numeric-bubble record of the bubble loop *)

Section DictLemmas.

Context {K V : Type} (eqk : K -> K -> bool).
Hypothesis eqk_spec : forall a b, eqk a b = true <-> a = b.

Lemma eqk_refl : forall a, eqk a a = true.
Proof. intro a; apply eqk_spec; reflexivity. Qed.

Lemma dict_get_set : forall (d : list (K * V)) k k' v,
  dict_get eqk k (dict_set eqk k' v d) = if eqk k k' then Some v else dict_get eqk k d.
Proof.
  induction d as [|[k2 v2] t IH]; intros k k' v; simpl; [reflexivity|].
  destruct (eqk k' k2) eqn:E12.
  - apply eqk_spec in E12; subst k2; simpl.
    destruct (eqk k k'); reflexivity.
  - simpl; destruct (eqk k k2) eqn:E2.
    + apply eqk_spec in E2; subst k2.
      destruct (eqk k k') eqn:E1; [|reflexivity].
      apply eqk_spec in E1; subst; rewrite eqk_refl in E12; discriminate.
    + apply IH.
Qed.

Lemma dict_set_get_same : forall (d : list (K * V)) k v,
  dict_get eqk k d = Some v -> dict_set eqk k v d = d.
Proof.
  induction d as [|[k2 v2] t IH]; intros k v H; simpl in H |- *; [discriminate|].
  destruct (eqk k k2) eqn:E.
  - injection H as ->; reflexivity.
  - rewrite (IH k v H); reflexivity.
Qed.

End DictLemmas.

Lemma numeric_symbol_record : forall numeric q p d q' p',
  numeric_symbol (record_digit q p d numeric) q' p' =
  if String.eqb q' q && Z.eqb p' p
  then match numeric_symbol numeric q p with Some x => Some x | None => Some d end
  else numeric_symbol numeric q' p'.
Proof.
  intros numeric q p d q' p'; unfold numeric_symbol, record_digit.
  rewrite (dict_get_set String.eqb String.eqb_eq).
  destruct (String.eqb q' q) eqn:Eq; simpl.
  - apply String.eqb_eq in Eq; subst q'.
    destruct (dict_get String.eqb q numeric) as [m|];
      destruct (dict_get Z.eqb p m) eqn:Ep || destruct (dict_get Z.eqb p []) eqn:Ep;
      try discriminate.
    + destruct (Z.eqb p' p) eqn:Epp; [|reflexivity].
      apply Z.eqb_eq in Epp; subst; exact Ep.
    + rewrite (dict_get_set Z.eqb Z.eqb_eq).
      destruct (Z.eqb p' p) eqn:Epp; [reflexivity|].
      reflexivity.
    + simpl; destruct (Z.eqb p' p); reflexivity.
  - reflexivity.
Qed.

Lemma bubble_step_numeric : forall sid thr st kv st',
  bubble_step sid thr st kv = Some st' ->
  ls_numeric st' =
    match recorded_digit thr kv with
    | Some (q, p, d) => record_digit q p d (ls_numeric st)
    | None => ls_numeric st
    end.
Proof.
  intros sid thr st [key value] st'; unfold bubble_step, recorded_digit; simpl fst; simpl snd.
  destruct (py_split "_"%char key) as [|a [|b [|c l]]];
    try (intro H; injection H as <-; reflexivity).
  destruct (is_numeric_code b).
  - destruct (py_int_of_string (nth 1 (py_split "-"%char b) EmptyString)); [|discriminate].
    destruct (is_DS (nth 2 (py_split "-"%char b) EmptyString) || is_marked value thr);
      intro H; injection H as <-; reflexivity.
  - destruct (is_marked value thr); intro H; injection H as <-; reflexivity.
Qed.

Lemma bubble_loop_numeric : forall sid thr items st0 st,
  bubble_loop sid thr st0 items = Some st ->
  forall q pos,
    numeric_symbol (ls_numeric st) q pos =
    match numeric_symbol (ls_numeric st0) q pos with
    | Some d => Some d
    | None => first_recorded thr items q pos
    end.
Proof.
  intros sid thr items; induction items as [|kv rest IH]; intros st0 st Hloop q pos;
    simpl in Hloop.
  - injection Hloop as <-; destruct (numeric_symbol (ls_numeric st0) q pos); reflexivity.
  - destruct (bubble_step sid thr st0 kv) as [st1|] eqn:Estep; [|discriminate].
    rewrite (IH st1 st Hloop q pos).
    rewrite (bubble_step_numeric _ _ _ _ _ Estep); simpl first_recorded.
    destruct (recorded_digit thr kv) as [[[q' p'] d']|].
    + rewrite numeric_symbol_record.
      destruct (String.eqb q q' && Z.eqb pos p') eqn:E.
      * apply andb_true_iff in E; destruct E as [E1 E2].
        apply String.eqb_eq in E1; apply Z.eqb_eq in E2; subst.
        destruct (numeric_symbol (ls_numeric st0) q' p'); reflexivity.
      * reflexivity.
    + reflexivity.
Qed.

(** ** C10 *)

(** C10: running the bubble loop from an empty [numeric_bubbles], the
    symbol recorded at each (question, position) is the one of the first
    recording bubble (a marked digit, or a D/S position) in iteration order;
    a later bubble for an already recorded (question, position) leaves
    [numeric_bubbles], hence the numeric answers, unchanged. *)
Theorem numeric_first_symbol_kept : forall sid thr st0 items st,
  ls_numeric st0 = [] ->
  bubble_loop sid thr st0 items = Some st ->
  (forall q pos, numeric_symbol (ls_numeric st) q pos = first_recorded thr items q pos) /\
  (forall kv st' q pos d d',
     recorded_digit thr kv = Some (q, pos, d') ->
     numeric_symbol (ls_numeric st) q pos = Some d ->
     bubble_step sid thr st kv = Some st' ->
     ls_numeric st' = ls_numeric st).
Proof.
  intros sid thr st0 items st H0 Hloop; split.
  - intros q pos; rewrite (bubble_loop_numeric _ _ _ _ _ Hloop), H0; reflexivity.
  - intros kv st' q pos d d' Hrec Hsym Hstep.
    rewrite (bubble_step_numeric _ _ _ _ _ Hstep), Hrec.
    unfold record_digit; unfold numeric_symbol in Hsym.
    destruct (dict_get String.eqb q (ls_numeric st)) as [m|] eqn:Eq; [|discriminate].
    rewrite Hsym.
    apply (dict_set_get_same String.eqb); [exact Eq].
Qed.

(** Witness of C10 on [two_digits_same_position] with threshold 120. *)
Lemma numeric_first_symbol_kept_witness :
  exists st,
    (ls_numeric empty_loop_state = [] /\
     bubble_loop "s" 120 empty_loop_state two_digits_same_position = Some st) /\
    numeric_symbol (ls_numeric st) "1.i" 0 = Some "1" /\
    ((forall q pos, numeric_symbol (ls_numeric st) q pos =
                    first_recorded 120 two_digits_same_position q pos) /\
     (forall kv st' q pos d d',
        recorded_digit 120 kv = Some (q, pos, d') ->
        numeric_symbol (ls_numeric st) q pos = Some d ->
        bubble_step "s" 120 st kv = Some st' ->
        ls_numeric st' = ls_numeric st)).
Proof.
  eexists.
  assert (H0 : ls_numeric empty_loop_state = []) by reflexivity.
  assert (H1 : bubble_loop "s" 120 empty_loop_state two_digits_same_position =
               Some {| ls_results := [("s", "1.i_1-0-1", 40); ("s", "1.i_1-0-7", 45);
                                      ("s", "1.i_1-0-3", 240)];
                       ls_numeric := [("1.i", [(0%Z, "1")])];
                       ls_regular := [] |}) by reflexivity.
  split; [split; [exact H0|exact H1]|].
  split; [reflexivity|].
  exact (numeric_first_symbol_kept "s" 120 empty_loop_state two_digits_same_position _ H0 H1).
Defined.

(** ** Marker alignment *)

Section AlignmentProofs.

Context {image : Type} (cv : opencv image).

Lemma find_markers_low : forall img marker regions,
  (exists r, In r regions /\ region_confidence cv img marker r < THRESHOLD_CIRCLE) ->
  find_markers cv img marker regions = None.
Proof.
  intros img marker regions; induction regions as [|r0 rest IH];
    intros (r & Hin & Hlow); [destruct Hin|].
  simpl; destruct r0 as [[[x1 y1] x2] y2].
  destruct (match_template cv (crop cv img x1 y1 x2 y2) marker) as [conf [lx ly]] eqn:Em.
  destruct (Qltb conf THRESHOLD_CIRCLE) eqn:Ec; [reflexivity|].
  destruct (image_shape cv marker) as [mh mw].
  destruct Hin as [<-|Hin].
  - unfold region_confidence in Hlow; rewrite Em in Hlow; simpl in Hlow.
    apply Qltb_iff in Hlow; congruence.
  - rewrite IH; [reflexivity|exists r; split; assumption].
Qed.

Lemma find_markers_high : forall img marker regions,
  (forall r, In r regions -> THRESHOLD_CIRCLE <= region_confidence cv img marker r) ->
  exists centers, find_markers cv img marker regions = Some centers.
Proof.
  intros img marker regions; induction regions as [|r0 rest IH]; intro Hhigh.
  - exists []; reflexivity.
  - simpl; destruct r0 as [[[x1 y1] x2] y2].
    destruct (match_template cv (crop cv img x1 y1 x2 y2) marker) as [conf [lx ly]] eqn:Em.
    assert (Hc : Qltb conf THRESHOLD_CIRCLE = false).
    { specialize (Hhigh _ (or_introl eq_refl)).
      unfold region_confidence in Hhigh; rewrite Em in Hhigh; simpl in Hhigh.
      destruct (Qltb conf THRESHOLD_CIRCLE) eqn:E; [|reflexivity].
      apply Qltb_iff in E; exfalso; exact (Qlt_not_le _ _ E Hhigh). }
    rewrite Hc; destruct (image_shape cv marker) as [mh mw].
    destruct IH as [centers Hc'];
      [intros r Hr; apply Hhigh; right; exact Hr|].
    rewrite Hc'; eexists; reflexivity.
Qed.

End AlignmentProofs.

(** ** C8 *)

(** C8: if the template-match confidence of any of the four corner search
    windows is below [THRESHOLD_CIRCLE] (0.6), [align_image_with_markers]
    returns the input image unchanged; when all four reach 0.6 it returns
    the perspective warp of the image from the found marker centres to the
    target points. *)
Theorem align_low_confidence_unchanged :
  forall {image : Type} (cv : opencv image) img marker_template dpi h w,
  image_shape cv img = (h, w) ->
  ((exists r, In r (search_regions w h) /\
      region_confidence cv img (alignment_marker cv marker_template dpi) r < THRESHOLD_CIRCLE) ->
   align_image_with_markers cv img marker_template dpi = img) /\
  ((forall r, In r (search_regions w h) ->
      THRESHOLD_CIRCLE <= region_confidence cv img (alignment_marker cv marker_template dpi) r) ->
   exists centers,
     find_markers cv img (alignment_marker cv marker_template dpi) (search_regions w h) =
       Some centers /\
     align_image_with_markers cv img marker_template dpi =
       warp cv img (map to_Q_point centers) (target_points w h dpi) (w, h)).
Proof.
  intros image cv img marker_template dpi h w Hshape; split.
  - intro Hlow; unfold align_image_with_markers; rewrite Hshape.
    rewrite (find_markers_low cv _ _ _ Hlow); reflexivity.
  - intro Hhigh; destruct (find_markers_high cv _ _ _ Hhigh) as [centers Hc].
    exists centers; split; [exact Hc|].
    unfold align_image_with_markers; rewrite Hshape, Hc; reflexivity.
Qed.

(** Witness of C8 on the toy image model. *)
Lemma align_low_confidence_unchanged_witness :
  image_shape toy_cv 7%Z = (400%Z, 300%Z) /\
  ((exists r, In r (search_regions 300 400) /\
      region_confidence toy_cv 7%Z (alignment_marker toy_cv 0%Z (200, 200)) r
        < THRESHOLD_CIRCLE) ->
   align_image_with_markers toy_cv 7%Z 0%Z (200, 200) = 7%Z) /\
  ((forall r, In r (search_regions 300 400) ->
      THRESHOLD_CIRCLE <= region_confidence toy_cv 7%Z (alignment_marker toy_cv 0%Z (200, 200)) r) ->
   exists centers,
     find_markers toy_cv 7%Z (alignment_marker toy_cv 0%Z (200, 200)) (search_regions 300 400) =
       Some centers /\
     align_image_with_markers toy_cv 7%Z 0%Z (200, 200) =
       warp toy_cv 7%Z (map to_Q_point centers) (target_points 300 400 (200, 200)) (300%Z, 400%Z)).
Proof.
  assert (H : image_shape toy_cv 7%Z = (400%Z, 300%Z)) by reflexivity.
  split; [exact H|exact (align_low_confidence_unchanged toy_cv 7%Z 0%Z (200, 200) 400 300 H)].
Defined.

Example toy_alignment_skipped : align_image_with_markers toy_cv 7%Z 0%Z (200, 200) = 7%Z.
Proof. reflexivity. Qed.

(** ** The per-page results table *)

Lemma pair_eqb_spec : forall a b, pair_eqb a b = true <-> a = b.
Proof.
  intros [a1 a2] [b1 b2]; unfold pair_eqb; simpl.
  rewrite andb_true_iff, !String.eqb_eq; split; [intros [-> ->]; reflexivity|].
  intro H; injection H as -> ->; split; reflexivity.
Qed.

Lemma bubble_step_results : forall sid thr st key value st',
  bubble_step sid thr st (key, value) = Some st' ->
  ls_results st' =
    if is_decimal_slash key then ls_results st
    else dict_set pair_eqb (sid, key) value (ls_results st).
Proof.
  intros sid thr st key value st'; unfold bubble_step.
  destruct (py_split "_"%char key) as [|a [|b [|c l]]];
    try (intro H; injection H as <-; reflexivity).
  destruct (is_numeric_code b).
  - destruct (py_int_of_string (nth 1 (py_split "-"%char b) EmptyString)); [|discriminate].
    destruct (is_DS (nth 2 (py_split "-"%char b) EmptyString) || is_marked value thr);
      intro H; injection H as <-; reflexivity.
  - destruct (is_marked value thr); intro H; injection H as <-; reflexivity.
Qed.

Lemma bubble_loop_results : forall sid thr items st0 st,
  NoDup (map fst items) ->
  bubble_loop sid thr st0 items = Some st ->
  forall k,
    dict_get pair_eqb (sid, k) (ls_results st) =
    match dict_get String.eqb k items with
    | Some v => if is_decimal_slash k then dict_get pair_eqb (sid, k) (ls_results st0)
                else Some v
    | None => dict_get pair_eqb (sid, k) (ls_results st0)
    end.
Proof.
  intros sid thr items; induction items as [|[k1 v1] rest IH];
    intros st0 st Hnd Hloop k; cbn [bubble_loop] in Hloop; cbn [dict_get map fst] in Hnd |- *.
  - injection Hloop as <-; reflexivity.
  - inversion Hnd as [|? ? Hnotin Hnd']; subst.
    destruct (bubble_step sid thr st0 (k1, v1)) as [st1|] eqn:Estep; [|discriminate].
    rewrite (IH st1 st Hnd' Hloop k).
    rewrite (bubble_step_results _ _ _ _ _ _ Estep).
    destruct (String.eqb k k1) eqn:Ek.
    + apply String.eqb_eq in Ek; subst k1.
      destruct (dict_get String.eqb k rest) as [v|] eqn:Er.
      * exfalso; apply Hnotin.
        apply (dict_get_In String.eqb) in Er; [|apply String.eqb_eq].
        apply (in_map fst) in Er; exact Er.
      * destruct (is_decimal_slash k); [reflexivity|].
        rewrite (dict_get_set pair_eqb pair_eqb_spec), (proj2 (pair_eqb_spec _ _) eq_refl);
          reflexivity.
    + assert (Hne : pair_eqb (sid, k) (sid, k1) = false).
      { unfold pair_eqb; simpl; rewrite Ek, andb_false_r; reflexivity. }
      destruct (is_decimal_slash k1);
        destruct (dict_get String.eqb k rest) as [v|];
        try destruct (is_decimal_slash k);
        rewrite ?(dict_get_set pair_eqb pair_eqb_spec), ?Hne; reflexivity.
Qed.

Lemma dict_set_keys : forall (d : list (string * Q)) k v x,
  In x (map fst (dict_set String.eqb k v d)) -> x = k \/ In x (map fst d).
Proof.
  induction d as [|[k2 v2] t IH]; intros k v x; simpl.
  - intros [<-|[]]; left; reflexivity.
  - destruct (String.eqb k k2); simpl.
    + intros H; right; exact H.
    + intros [<-|H]; [right; left; reflexivity|].
      destruct (IH k v x H) as [H'|H']; [left; exact H'|right; right; exact H'].
Qed.

Lemma dict_set_NoDup : forall (d : list (string * Q)) k v,
  NoDup (map fst d) -> NoDup (map fst (dict_set String.eqb k v d)).
Proof.
  induction d as [|[k2 v2] t IH]; intros k v Hnd; simpl.
  - repeat constructor; intros [].
  - inversion Hnd as [|? ? Hnotin Hnd']; subst.
    destruct (String.eqb k k2) eqn:E; simpl; [exact Hnd|].
    constructor; [|apply IH; exact Hnd'].
    intro Hin; destruct (dict_set_keys _ _ _ _ Hin) as [Heq|Hin'].
    + subst; rewrite String.eqb_refl in E; discriminate.
    + exact (Hnotin Hin').
Qed.

Lemma detect_aux_NoDup : forall sample rows acc,
  NoDup (map fst acc) -> NoDup (map fst (detect_bubble_values_aux sample rows acc)).
Proof.
  intros sample rows; induction rows as [|r rest IH]; intros acc Hnd; simpl; [exact Hnd|].
  destruct (bubble_key_value sample r) as [key value].
  apply IH, dict_set_NoDup; exact Hnd.
Qed.

Lemma py_contains_app : forall c a b,
  py_contains c (a ++ b) = py_contains c a || py_contains c b.
Proof.
  intros c a b; induction a as [|ch a IH]; simpl; [reflexivity|].
  rewrite IH, orb_assoc; reflexivity.
Qed.

Lemma bubble_key_has_dot : forall sample row,
  py_contains "."%char (fst (bubble_key_value sample row)) = true.
Proof.
  intros sample row; unfold bubble_key_value.
  destruct (is_numeric_code (row_question row));
    [destruct (is_DS (nth 2 (py_split "-"%char (row_question row)) EmptyString))|];
    simpl fst; rewrite py_contains_app; simpl; rewrite orb_true_r; reflexivity.
Qed.

Lemma detect_aux_keys_dot : forall sample rows acc,
  (forall k, In k (map fst acc) -> py_contains "."%char k = true) ->
  forall k, In k (map fst (detect_bubble_values_aux sample rows acc)) ->
  py_contains "."%char k = true.
Proof.
  intros sample rows; induction rows as [|r rest IH]; intros acc Hacc; simpl; [exact Hacc|].
  pose proof (bubble_key_has_dot sample r) as Hdot.
  destruct (bubble_key_value sample r) as [key value]; simpl in Hdot.
  apply IH; intros k Hk; destruct (dict_set_keys _ _ _ _ Hk) as [->|Hk'];
    [exact Hdot|exact (Hacc k Hk')].
Qed.

Lemma string_of_uint_no_dot : forall u, py_contains "."%char (string_of_uint u) = false.
Proof. induction u; simpl; try rewrite IHu; reflexivity. Qed.

Lemma threshold_column_no_dot : forall page,
  py_contains "."%char (threshold_column page) = false.
Proof.
  intro page; unfold threshold_column, string_of_Z.
  rewrite !py_contains_app.
  destruct (Z.to_int page); simpl; rewrite string_of_uint_no_dot; reflexivity.
Qed.

Lemma detect_aux_nonempty : forall sample rows acc,
  rows <> [] -> detect_bubble_values_aux sample rows acc <> [].
Proof.
  intros sample rows; induction rows as [|r rest IH]; intros acc Hne; [congruence|].
  simpl; destruct (bubble_key_value sample r) as [key value].
  destruct rest as [|r' rest'].
  - simpl; destruct acc as [|[k' v'] acc']; simpl; [discriminate|].
    destruct (String.eqb key k'); discriminate.
  - apply IH; discriminate.
Qed.

(** ** C9 *)

(** C9 (counterexample): the decimal-point key ["1.i_1-1-D"] is sampled on
    the page but gets no column in the student's row of the per-page table. *)
Lemma C9_counterexample :
  exists results answers,
    process_single_image (fun _ => 50) "s" 1 decimal_page_rows [] [] =
      Some (results, answers) /\
    In ("1.i_1-1-D", 100) (detect_bubble_values (fun _ => 50) (page_rows 1 decimal_page_rows)) /\
    dict_get pair_eqb ("s", "1.i_1-1-D") results = None.
Proof.
  do 2 eexists; split; [reflexivity|]; split; [simpl; auto|reflexivity].
Qed.

(** C9 (amended): when the page has bubble definitions and its processing
    completes, the student's row of the per-page table holds, for every
    sampled bubble key that is not a decimal/fraction (D/S) position, the
    key's intensity, and in column [page{N}_threshold] the page's
    threshold; the D/S keys get no column (their cells are left as they
    were, absent in the fresh per-directory table). *)
Theorem per_page_row_columns : forall sample student_id page df results answers
  results' answers',
  page_rows page df <> [] ->
  process_single_image sample student_id page df results answers = Some (results', answers') ->
  (forall k v,
     dict_get String.eqb k (detect_bubble_values sample (page_rows page df)) = Some v ->
     dict_get pair_eqb (student_id, k) results' =
       if is_decimal_slash k then dict_get pair_eqb (student_id, k) results else Some v) /\
  dict_get pair_eqb (student_id, threshold_column page) results' =
    Some (page_threshold (detect_bubble_values sample (page_rows page df))).
Proof.
  intros sample sid page df results answers results' answers' Hne Hproc.
  unfold process_single_image in Hproc.
  pose proof (detect_aux_NoDup sample (page_rows page df) [] (NoDup_nil _)) as Hnd.
  pose proof (detect_aux_keys_dot sample (page_rows page df) []
                (fun k (H : In k []) => match H with end)) as Hdot.
  pose proof (detect_aux_nonempty sample (page_rows page df) [] Hne) as Hbv.
  fold (detect_bubble_values sample (page_rows page df)) in Hnd, Hdot, Hbv.
  destruct (page_rows page df) as [|r rs]; [congruence|].
  unfold process_bubbles in Hproc.
  destruct (detect_bubble_values sample (r :: rs)) as [|kv0 kvs] eqn:Hd; [congruence|].
  rewrite <- Hd in Hproc, Hnd, Hdot |- *.
  destruct (bubble_loop sid (page_threshold (detect_bubble_values sample (r :: rs)))
              {| ls_results := results; ls_numeric := []; ls_regular := [] |}
              (detect_bubble_values sample (r :: rs))) as [st|] eqn:Hloop;
    [|discriminate].
  destruct (store_regular _ _ _); [|discriminate].
  injection Hproc as <- _.
  split.
  - intros k v Hk.
    rewrite (dict_get_set pair_eqb pair_eqb_spec).
    assert (Hneq : pair_eqb (sid, k) (sid, threshold_column page) = false).
    { destruct (pair_eqb (sid, k) (sid, threshold_column page)) eqn:E; [|reflexivity].
      apply pair_eqb_spec in E; injection E as Ek.
      assert (Hin : In k (map fst (detect_bubble_values sample (r :: rs)))).
      { apply (in_map fst (detect_bubble_values sample (r :: rs)) (k, v)).
        apply (dict_get_In String.eqb); [apply String.eqb_eq|exact Hk]. }
      pose proof (Hdot k Hin) as Hk'; rewrite Ek, threshold_column_no_dot in Hk'.
      discriminate. }
    rewrite Hneq, (bubble_loop_results _ _ _ _ _ Hnd Hloop k), Hk; reflexivity.
  - rewrite (dict_get_set pair_eqb pair_eqb_spec), (proj2 (pair_eqb_spec _ _) eq_refl).
    reflexivity.
Qed.

(** Witness of C9 on [decimal_page_rows]. *)
Lemma per_page_row_columns_witness :
  exists results' answers',
    (page_rows 1 decimal_page_rows <> [] /\
     process_single_image (fun _ => 50) "s" 1 decimal_page_rows [] [] =
       Some (results', answers')) /\
    (forall k v,
       dict_get String.eqb k (detect_bubble_values (fun _ => 50) (page_rows 1 decimal_page_rows)) =
         Some v ->
       dict_get pair_eqb ("s", k) results' =
         if is_decimal_slash k then dict_get pair_eqb ("s", k) [] else Some v) /\
    dict_get pair_eqb ("s", threshold_column 1) results' =
      Some (page_threshold (detect_bubble_values (fun _ => 50) (page_rows 1 decimal_page_rows))).
Proof.
  do 2 eexists.
  assert (H1 : page_rows 1 decimal_page_rows <> []) by discriminate.
  assert (H2 : process_single_image (fun _ => 50) "s" 1 decimal_page_rows [] [] =
               Some ([("s", "1.i_a", 50); ("s", "page1_threshold", 50)],
                     [("s", [])])) by reflexivity.
  split; [split; [exact H1|exact H2]|].
  exact (per_page_row_columns (fun _ => 50) "s" 1 decimal_page_rows [] [] _ _ H1 H2).
Defined.

(** ** C6 *)

(** C6 (code bug): on page 2 the choice e is marked and paired with a
    numeric group, and no numeric answer is produced for 1.i (its
    [numeric_bubbles] stays empty), yet e is dropped from the answers of
    1.i, because the answer a stored for 1.i from page 1 is taken as a
    numeric answer. *)
Theorem other_choice_dropped_without_numeric_answer :
  is_marked (two_page_sample (mk_row 2 "1" "i" "e"))
    (page_threshold (detect_bubble_values two_page_sample (page_rows 2 two_page_rows))) = true /\
  is_other_choice (page_rows 2 two_page_rows) "1.i" "e" = Some true /\
  (exists st,
     bubble_loop "s"
       (page_threshold (detect_bubble_values two_page_sample (page_rows 2 two_page_rows)))
       {| ls_results := []; ls_numeric := []; ls_regular := [] |}
       (detect_bubble_values two_page_sample (page_rows 2 two_page_rows)) = Some st /\
     ls_numeric st = [] /\ ls_regular st = [("1.i", ["e"])]) /\
  (exists results, run_two_pages = Some (results, [("s", [("1.i", ["a"])])])).
Proof.
  split; [reflexivity|]; split; [reflexivity|]; split.
  - eexists; split; [reflexivity|split; reflexivity].
  - eexists; reflexivity.
Qed.

(** The same page 2 processed for a student with no earlier answer keeps e. *)
Example other_choice_kept_on_fresh_student :
  exists results,
    process_single_image two_page_sample "s" 2 two_page_rows [] [] =
      Some (results, [("s", [("1.i", ["e"])])]).
Proof. eexists; reflexivity. Qed.

(** * Further properties of the code *)

(** ** calculate_threshold: bounds and separation *)

Lemma py_min_le_r : forall a b, py_min a b <= b.
Proof.
  intros a b; unfold py_min; destruct (Qltb b a) eqn:E; [apply Qle_refl|].
  apply Qltb_false; exact E.
Qed.

Lemma calculate_threshold_le_global : forall values,
  calculate_threshold values <= GLOBAL_THRESHOLD.
Proof.
  intros [|v vs]; [vm_compute; discriminate|].
  unfold calculate_threshold; cbv zeta.
  destruct (sorted_q (v :: vs)) as [|h t]; [|destruct (gap_scan h t 0 _)];
    apply py_min_le_r.
Qed.

Lemma midpoint_between : forall a b, a < b -> a < (b + a) / 2 /\ (b + a) / 2 < b.
Proof.
  intros a b H.
  setoid_replace ((b + a) / 2) with ((1 # 2) * b + (1 # 2) * a) by field.
  split; lra.
Qed.

Lemma consecutive_pairs_In : forall l a b,
  In (a, b) (consecutive_pairs l) -> In a l /\ In b l.
Proof.
  induction l as [|x t IH]; intros a b H; [destruct H|].
  destruct t as [|y t']; [destruct H|].
  change (consecutive_pairs (x :: y :: t')) with ((x, y) :: consecutive_pairs (y :: t')) in H.
  destruct H as [H|H].
  - injection H as <- <-; split; [left|right; left]; reflexivity.
  - destruct (IH a b H) as [Ha Hb]; split; right; assumption.
Qed.

(** A consecutive pair of an ascending list splits it: every element is at
    most the pair's first or at least its second. *)
Lemma consecutive_pairs_separate : forall l,
  StronglySorted Qle l ->
  forall a b, In (a, b) (consecutive_pairs l) -> forall v, In v l -> v <= a \/ b <= v.
Proof.
  induction l as [|x t IH]; intros Hs a b H v Hv; [destruct H|].
  destruct t as [|y t']; [destruct H|].
  inversion Hs as [|? ? Ht Hall]; subst.
  change (consecutive_pairs (x :: y :: t')) with ((x, y) :: consecutive_pairs (y :: t')) in H.
  rewrite Forall_forall in Hall.
  destruct H as [H|H].
  - injection H as <- <-.
    destruct Hv as [<-|Hv]; [left; apply Qle_refl|right].
    destruct Hv as [<-|Hv]; [apply Qle_refl|].
    inversion Ht as [|? ? _ Hall']; subst; rewrite Forall_forall in Hall'.
    apply Hall'; exact Hv.
  - destruct Hv as [<-|Hv].
    + left; apply Hall; apply (consecutive_pairs_In _ _ _ H).
    + exact (IH Ht a b H v Hv).
Qed.

(** The two outcomes of [calculate_threshold] on a non-empty list. *)
Lemma calculate_threshold_cases : forall values,
  values <> [] ->
  ((forall c d, In (c, d) (consecutive_pairs (sorted_q values)) -> d - c <= MIN_JUMP) /\
   calculate_threshold values == Qmin (np_mean values) GLOBAL_THRESHOLD)
  \/
  (exists a b, In (a, b) (consecutive_pairs (sorted_q values)) /\ MIN_JUMP < b - a /\
     calculate_threshold values == Qmin ((b + a) / 2) GLOBAL_THRESHOLD).
Proof.
  intros values Hne.
  destruct values as [|v vs]; [congruence|].
  pose proof (sorted_q_perm (v :: vs)) as Hp.
  unfold calculate_threshold.
  destruct (sorted_q (v :: vs)) as [|h t] eqn:Hs.
  - apply Permutation_sym, Permutation_nil in Hp; discriminate.
  - destruct (gap_scan_spec t h 0 (py_min 200 GLOBAL_THRESHOLD)) as [[Hscan Hno]|Hyes].
    + left; split.
      * intros c d Hin; apply Qnot_lt_le; intro Hlt.
        apply (Hno c d Hin); split; [exact Hlt|].
        apply Qlt_trans with MIN_JUMP; [reflexivity|exact Hlt].
      * rewrite Hscan; simpl Qeq_bool; cbv iota beta.
        rewrite py_min_Qmin, (np_mean_perm _ _ Hp); reflexivity.
    + destruct Hyes as (i & a & b & Hn & H1 & H2 & Hscan & _ & _).
      right; exists a, b.
      split; [apply nth_error_In in Hn; exact Hn|]; split; [exact H1|].
      rewrite Hscan.
      assert (Hz : Qeq_bool (b - a) 0 = false).
      { destruct (Qeq_bool (b - a) 0) eqn:E; [|reflexivity].
        apply Qeq_bool_iff in E; rewrite E in H2; discriminate. }
      rewrite Hz, py_min_Qmin; reflexivity.
Qed.

Lemma length_succ_Q : forall (x : Q) t,
  inject_Z (Z.of_nat (List.length (x :: t))) ==
  inject_Z (Z.of_nat (List.length t)) + 1.
Proof.
  intros x t; cbn [List.length]; rewrite Nat2Z.inj_succ, <- Z.add_1_r, inject_Z_plus;
    reflexivity.
Qed.

Lemma sum_q_bounds : forall lo hi l,
  (forall v, In v l -> lo <= v /\ v <= hi) ->
  lo * inject_Z (Z.of_nat (List.length l)) <= sum_q l /\
  sum_q l <= hi * inject_Z (Z.of_nat (List.length l)).
Proof.
  intros lo hi; induction l as [|x t IH]; intro Hb.
  - cbn [List.length sum_q]; change (inject_Z (Z.of_nat 0)) with 0; rewrite !Qmult_0_r;
    split; apply Qle_refl.
  - rewrite length_succ_Q; cbn [sum_q].
    destruct (Hb x (or_introl eq_refl)) as [Hx1 Hx2].
    destruct IH as [H1 H2]; [intros v Hv; apply Hb; right; exact Hv|].
    split; lra.
Qed.

Lemma np_mean_bounds : forall lo hi l,
  l <> [] ->
  (forall v, In v l -> lo <= v /\ v <= hi) ->
  lo <= np_mean l /\ np_mean l <= hi.
Proof.
  intros lo hi l Hne Hb; unfold np_mean.
  destruct (sum_q_bounds lo hi l Hb) as [H1 H2].
  assert (Hn : 0 < inject_Z (Z.of_nat (List.length l))).
  { destruct l as [|x t]; [congruence|].
    unfold Qlt; cbn [List.length Qnum Qden inject_Z]; lia. }
  split; [apply Qle_shift_div_l|apply Qle_shift_div_r]; try exact Hn.
  - exact H1.
  - exact H2.
Qed.

(** X1: the threshold of a page is never above [GLOBAL_THRESHOLD]; so for
    a page threshold the second test of [is_marked] is implied by the
    first, and a bubble is marked exactly when its value is strictly below
    the page threshold. *)
Theorem page_threshold_capped : forall bubble_values,
  page_threshold bubble_values <= GLOBAL_THRESHOLD /\
  forall value,
    is_marked value (page_threshold bubble_values) =
    Qltb value (page_threshold bubble_values).
Proof.
  intro bv.
  assert (Hle : page_threshold bv <= GLOBAL_THRESHOLD).
  { unfold page_threshold; destruct (values_for_threshold bv);
      [apply Qle_refl|apply calculate_threshold_le_global]. }
  split; [exact Hle|intro value].
  unfold is_marked; destruct (Qltb value (page_threshold bv)) eqn:E; [|reflexivity].
  apply Qltb_iff in E; simpl; apply Qltb_iff.
  apply Qlt_le_trans with (page_threshold bv); assumption.
Qed.

(** X2: for a list of values bounded by [lo] and [hi] (both occurring in
    it), the threshold lies between [min(lo, GLOBAL_THRESHOLD)] and [hi];
    in particular the lightest value [hi] is never marked. *)
Theorem calculate_threshold_within_values : forall values lo hi,
  In lo values -> In hi values ->
  (forall v, In v values -> lo <= v /\ v <= hi) ->
  Qmin lo GLOBAL_THRESHOLD <= calculate_threshold values /\
  calculate_threshold values <= hi /\
  is_marked hi (calculate_threshold values) = false.
Proof.
  intros values lo hi Hlo Hhi Hb.
  assert (Hne : values <> []) by (intro E; rewrite E in Hhi; destruct Hhi).
  assert (Hbounds : Qmin lo GLOBAL_THRESHOLD <= calculate_threshold values /\
                    calculate_threshold values <= hi).
  { destruct (calculate_threshold_cases values Hne) as [[_ Hthr]|(a & b & Hin & Hgap & Hthr)];
      rewrite Hthr.
    - destruct (np_mean_bounds lo hi values Hne Hb) as [H1 H2].
      split; [apply Q.min_le_compat_r; exact H1|].
      apply Qle_trans with (np_mean values); [apply Q.le_min_l|exact H2].
    - pose proof (sorted_q_perm values) as Hp.
      destruct (consecutive_pairs_In _ _ _ Hin) as [Ha Hb'].
      apply (Permutation_in _ (Permutation_sym Hp)) in Ha.
      apply (Permutation_in _ (Permutation_sym Hp)) in Hb'.
      assert (Hab : a < b).
      { apply Qlt_trans with (a + MIN_JUMP); [unfold MIN_JUMP; lra|lra]. }
      destruct (midpoint_between a b Hab) as [M1 M2].
      split.
      + apply Q.min_le_compat_r.
        apply Qle_trans with a; [apply (Hb a Ha)|apply Qlt_le_weak; exact M1].
      + apply Qle_trans with ((b + a) / 2); [apply Q.le_min_l|].
        apply Qle_trans with b; [apply Qlt_le_weak; exact M2|apply (Hb b Hb')]. }
  split; [apply Hbounds|]; split; [apply Hbounds|].
  unfold is_marked; destruct (Qltb hi (calculate_threshold values)) eqn:E; [|reflexivity].
  apply Qltb_iff in E; exfalso; exact (Qlt_not_le _ _ E (proj2 Hbounds)).
Qed.

(** Witness of X2 on the docstring's values. *)
Lemma calculate_threshold_within_values_witness :
  (In 50 [50; 55; 60; 180; 185; 190] /\ In 190 [50; 55; 60; 180; 185; 190] /\
   forall v, In v [50; 55; 60; 180; 185; 190] -> 50 <= v /\ v <= 190) /\
  Qmin 50 GLOBAL_THRESHOLD <= calculate_threshold [50; 55; 60; 180; 185; 190] /\
  calculate_threshold [50; 55; 60; 180; 185; 190] <= 190 /\
  is_marked 190 (calculate_threshold [50; 55; 60; 180; 185; 190]) = false.
Proof.
  assert (H1 : In 50 [50; 55; 60; 180; 185; 190]) by (simpl; auto).
  assert (H2 : In 190 [50; 55; 60; 180; 185; 190]) by (simpl; tauto).
  assert (H3 : forall v, In v [50; 55; 60; 180; 185; 190] -> 50 <= v /\ v <= 190).
  { intros v Hv; simpl in Hv.
    destruct Hv as [<-|[<-|[<-|[<-|[<-|[<-|[]]]]]]]; split; vm_compute; discriminate. }
  split; [split; [exact H1|split; [exact H2|exact H3]]|].
  exact (calculate_threshold_within_values _ 50 190 H1 H2 H3).
Defined.

(** X3: when some consecutive pair of the sorted values has a gap above
    [MIN_JUMP], there are two values [a < b], [b - a > MIN_JUMP], with
    no value strictly between them, such that every value at most [a] is
    marked exactly when it is below [GLOBAL_THRESHOLD] and no value at
    least [b] is marked. *)
Theorem calculate_threshold_separates : forall values c d,
  In (c, d) (consecutive_pairs (sorted_q values)) -> MIN_JUMP < d - c ->
  exists a b,
    In a values /\ In b values /\ MIN_JUMP < b - a /\
    (forall v, In v values -> v <= a \/ b <= v) /\
    (forall v, In v values -> v <= a ->
       is_marked v (calculate_threshold values) = Qltb v GLOBAL_THRESHOLD) /\
    (forall v, In v values -> b <= v -> is_marked v (calculate_threshold values) = false).
Proof.
  intros values c d Hcd Hgap.
  assert (Hne : values <> []).
  { intro E; rewrite E in Hcd; destruct Hcd. }
  destruct (calculate_threshold_cases values Hne) as [[Hsmall _]|(a & b & Hin & Hab & Hthr)].
  - exfalso; exact (Qlt_not_le _ _ Hgap (Hsmall c d Hcd)).
  - pose proof (sorted_q_perm values) as Hp.
    destruct (consecutive_pairs_In _ _ _ Hin) as [Ha Hb].
    apply (Permutation_in _ (Permutation_sym Hp)) in Ha.
    apply (Permutation_in _ (Permutation_sym Hp)) in Hb.
    assert (Hlt : a < b) by (unfold MIN_JUMP in Hab; lra).
    destruct (midpoint_between a b Hlt) as [M1 M2].
    exists a, b; split; [exact Ha|]; split; [exact Hb|]; split; [exact Hab|]; split; [|split].
    + intros v Hv.
      apply (consecutive_pairs_separate (sorted_q values)) with (v := v) in Hin.
      * exact Hin.
      * apply Sorted_StronglySorted; [exact Qle_trans|apply sorted_q_sorted].
      * apply (Permutation_in _ Hp); exact Hv.
    + intros v _ Hva; unfold is_marked.
      destruct (Qltb v GLOBAL_THRESHOLD) eqn:Eg; [|apply andb_false_r].
      rewrite andb_true_r; apply Qltb_iff; rewrite Hthr.
      apply Qltb_iff in Eg.
      apply Q.min_glb_lt; [apply Qle_lt_trans with a; assumption|exact Eg].
    + intros v _ Hbv; unfold is_marked.
      destruct (Qltb v (calculate_threshold values)) eqn:E; [|reflexivity].
      apply Qltb_iff in E; rewrite Hthr in E; exfalso.
      apply (Qlt_not_le _ _ E).
      apply Qle_trans with ((b + a) / 2); [apply Q.le_min_l|].
      apply Qle_trans with b; [apply Qlt_le_weak; exact M2|exact Hbv].
Qed.

(** Witness of X3 on the docstring's values, split by the pair (60, 180). *)
Lemma calculate_threshold_separates_witness :
  (In (60, 180) (consecutive_pairs (sorted_q [50; 55; 60; 180; 185; 190])) /\
   MIN_JUMP < 180 - 60) /\
  exists a b,
    In a [50; 55; 60; 180; 185; 190] /\ In b [50; 55; 60; 180; 185; 190] /\
    MIN_JUMP < b - a /\
    (forall v, In v [50; 55; 60; 180; 185; 190] -> v <= a \/ b <= v) /\
    (forall v, In v [50; 55; 60; 180; 185; 190] -> v <= a ->
       is_marked v (calculate_threshold [50; 55; 60; 180; 185; 190]) =
       Qltb v GLOBAL_THRESHOLD) /\
    (forall v, In v [50; 55; 60; 180; 185; 190] -> b <= v ->
       is_marked v (calculate_threshold [50; 55; 60; 180; 185; 190]) = false).
Proof.
  assert (H1 : In (60, 180) (consecutive_pairs (sorted_q [50; 55; 60; 180; 185; 190])))
    by (simpl; tauto).
  assert (H2 : MIN_JUMP < 180 - 60) by reflexivity.
  split; [split; assumption|].
  exact (calculate_threshold_separates _ 60 180 H1 H2).
Defined.

(** ** point_to_pixel: monotonicity and symmetry *)

Lemma py_int_trunc : forall x,
  py_int x = (if Qle_bool 0 x then Qfloor x else Qceiling x).
Proof.
  intros [n d]; unfold py_int; simpl Qnum; simpl Qden.
  destruct (Qle_bool 0 (n # d)) eqn:E.
  - apply Qle_bool_iff in E; unfold Qle in E; simpl in E.
    unfold Qfloor; apply Z.quot_div_nonneg; lia.
  - assert (Hn : (n < 0)%Z).
    { destruct (Z_lt_le_dec n 0) as [Hlt|Hge]; [exact Hlt|].
      exfalso; assert (Hq : 0 <= n # d) by (unfold Qle; simpl; lia).
      apply Qle_bool_iff in Hq; congruence. }
    unfold Qceiling, Qfloor; simpl.
    rewrite <- (Z.opp_involutive n) at 1.
    rewrite Z.quot_opp_l by lia.
    rewrite Z.quot_div_nonneg by lia.
    reflexivity.
Qed.

Lemma Qle_bool_0_compat : forall x y, x == y -> Qle_bool 0 x = Qle_bool 0 y.
Proof.
  intros x y Hxy; destruct (Qle_bool 0 y) eqn:E.
  - apply Qle_bool_iff; apply Qle_bool_iff in E; rewrite Hxy; exact E.
  - destruct (Qle_bool 0 x) eqn:E'; [|reflexivity].
    apply Qle_bool_iff in E'; rewrite Hxy in E'; apply Qle_bool_iff in E'; congruence.
Qed.

Lemma py_int_compat : forall x y, x == y -> py_int x = py_int y.
Proof.
  intros x y Hxy; rewrite !py_int_trunc, (Qle_bool_0_compat _ _ Hxy).
  destruct (Qle_bool 0 y); [apply Qfloor_comp|apply Qceiling_comp]; exact Hxy.
Qed.

Lemma py_int_mono : forall x y, x <= y -> (py_int x <= py_int y)%Z.
Proof.
  intros x y Hxy; rewrite !py_int_trunc.
  destruct (Qle_bool 0 x) eqn:Ex, (Qle_bool 0 y) eqn:Ey.
  - apply Qfloor_resp_le; exact Hxy.
  - apply Qle_bool_iff in Ex; exfalso.
    assert (Hy : 0 <= y) by (apply Qle_trans with x; assumption).
    apply Qle_bool_iff in Hy; congruence.
  - apply Z.le_trans with (Qceiling 0).
    + apply Qceiling_resp_le; apply Qnot_lt_le; intro H.
      apply Qlt_le_weak, Qle_bool_iff in H; congruence.
    + change (Qceiling 0) with (Qfloor 0); apply Qfloor_resp_le.
      apply Qle_bool_iff; exact Ey.
  - apply Qceiling_resp_le; exact Hxy.
Qed.

Lemma py_int_opp : forall x, py_int (- x) = (- py_int x)%Z.
Proof. intros [n d]; unfold py_int; simpl; apply Z.quot_opp_l; lia. Qed.

(** X4: for a non-negative DPI, [point_to_pixel] is non-decreasing in the
    point value. *)
Theorem point_to_pixel_monotone : forall v1 v2 dpi,
  0 <= dpi -> v1 <= v2 -> (point_to_pixel v1 dpi <= point_to_pixel v2 dpi)%Z.
Proof.
  intros v1 v2 dpi Hdpi Hv; unfold point_to_pixel; apply py_int_mono.
  unfold Qdiv; apply Qmult_le_compat_r; [|vm_compute; discriminate].
  apply Qmult_le_compat_r; assumption.
Qed.

(** Witness of X4: 10 and 20 points at 200 DPI. *)
Lemma point_to_pixel_monotone_witness :
  (0 <= 200 /\ 10 <= 20) /\ (point_to_pixel 10 200 <= point_to_pixel 20 200)%Z.
Proof.
  assert (H1 : 0 <= 200) by (vm_compute; discriminate).
  assert (H2 : 10 <= 20) by (vm_compute; discriminate).
  split; [split; assumption|exact (point_to_pixel_monotone 10 20 200 H1 H2)].
Defined.

(** X5: [point_to_pixel] is odd in the point value (truncation toward zero
    is symmetric), so in particular a zero offset gives pixel 0. *)
Theorem point_to_pixel_odd : forall value dpi,
  point_to_pixel (- value) dpi = (- point_to_pixel value dpi)%Z /\
  point_to_pixel 0 dpi = 0%Z.
Proof.
  intros value dpi; unfold point_to_pixel; split.
  - rewrite <- py_int_opp; apply py_int_compat; field.
  - rewrite (py_int_compat _ 0); [reflexivity|field].
Qed.

(** ** The multiple-choice record of the bubble loop *)

Lemma question_tokens_set : forall q q' v m,
  question_tokens q (dict_set String.eqb q' v m) =
  if String.eqb q q' then v else question_tokens q m.
Proof.
  intros q q' v m; unfold question_tokens.
  rewrite (dict_get_set String.eqb String.eqb_eq).
  destruct (String.eqb q q'); reflexivity.
Qed.

Lemma bubble_step_regular : forall sid thr st kv st',
  bubble_step sid thr st kv = Some st' ->
  ls_regular st' =
    match regular_choice thr kv with
    | Some (q, c) =>
        dict_set String.eqb q (question_tokens q (ls_regular st) ++ [c])%list (ls_regular st)
    | None => ls_regular st
    end.
Proof.
  intros sid thr st [key value] st'; unfold bubble_step, regular_choice; simpl fst; simpl snd.
  destruct (py_split "_"%char key) as [|a [|b [|c l]]];
    try (intro H; injection H as <-; reflexivity).
  destruct (is_numeric_code b).
  - destruct (py_int_of_string (nth 1 (py_split "-"%char b) EmptyString)); [|discriminate].
    destruct (is_DS (nth 2 (py_split "-"%char b) EmptyString) || is_marked value thr);
      intro H; injection H as <-; reflexivity.
  - destruct (is_marked value thr); intro H; injection H as <-; reflexivity.
Qed.

(** X6: after the bubble loop, the choices recorded for each question are
    the ones recorded before, followed by the choices of the marked,
    non-numeric bubbles of that question in iteration order. *)
Theorem bubble_loop_regular_choices : forall sid thr items st0 st,
  bubble_loop sid thr st0 items = Some st ->
  forall q, question_tokens q (ls_regular st) =
            (question_tokens q (ls_regular st0) ++ marked_choices thr items q)%list.
Proof.
  intros sid thr items; induction items as [|kv rest IH]; intros st0 st Hloop q;
    cbn [bubble_loop] in Hloop.
  - injection Hloop as <-; rewrite app_nil_r; reflexivity.
  - destruct (bubble_step sid thr st0 kv) as [st1|] eqn:Estep; [|discriminate].
    rewrite (IH st1 st Hloop q), (bubble_step_regular _ _ _ _ _ Estep); cbn [marked_choices].
    destruct (regular_choice thr kv) as [[q' c]|]; [|reflexivity].
    rewrite question_tokens_set.
    destruct (String.eqb q q') eqn:E; [|reflexivity].
    apply String.eqb_eq in E; subst q'; rewrite <- app_assoc; reflexivity.
Qed.

(** Witness of X6: choices a and c of question 2.ii marked, b not. *)
Lemma bubble_loop_regular_choices_witness :
  exists st,
    bubble_loop "s" 120 empty_loop_state
      [("2.ii_a", 40); ("2.ii_b", 200); ("2.ii_c", 50)] = Some st /\
    question_tokens "2.ii" (ls_regular st) = ["a"; "c"] /\
    forall q, question_tokens q (ls_regular st) =
      (question_tokens q (ls_regular empty_loop_state) ++
       marked_choices 120 [("2.ii_a", 40); ("2.ii_b", 200); ("2.ii_c", 50)] q)%list.
Proof.
  eexists.
  assert (H : bubble_loop "s" 120 empty_loop_state
                [("2.ii_a", 40); ("2.ii_b", 200); ("2.ii_c", 50)] =
              Some {| ls_results := [("s", "2.ii_a", 40); ("s", "2.ii_b", 200);
                                     ("s", "2.ii_c", 50)];
                      ls_numeric := [];
                      ls_regular := [("2.ii", ["a"; "c"])] |}) by reflexivity.
  split; [exact H|]; split; [reflexivity|].
  exact (bubble_loop_regular_choices _ _ _ _ _ H).
Defined.

(** ** process_single_image and the other students *)

Lemma pair_eqb_other : forall sid sid' k k', sid' <> sid -> pair_eqb (sid', k) (sid, k') = false.
Proof.
  intros sid sid' k k' Hne; destruct (pair_eqb (sid', k) (sid, k')) eqn:E; [|reflexivity].
  apply pair_eqb_spec in E; injection E as E _; congruence.
Qed.

Lemma bubble_loop_results_other : forall sid thr items st0 st,
  bubble_loop sid thr st0 items = Some st ->
  forall sid' k, sid' <> sid ->
  dict_get pair_eqb (sid', k) (ls_results st) = dict_get pair_eqb (sid', k) (ls_results st0).
Proof.
  intros sid thr items; induction items as [|[key value] rest IH];
    intros st0 st Hloop sid' k Hne; cbn [bubble_loop] in Hloop.
  - injection Hloop as <-; reflexivity.
  - destruct (bubble_step sid thr st0 (key, value)) as [st1|] eqn:Estep; [|discriminate].
    rewrite (IH st1 st Hloop sid' k Hne), (bubble_step_results _ _ _ _ _ _ Estep).
    destruct (is_decimal_slash key); [reflexivity|].
    rewrite (dict_get_set pair_eqb pair_eqb_spec), pair_eqb_other by exact Hne.
    reflexivity.
Qed.

(** X7: processing an image of student [sid] changes neither the per-page
    cells nor the collected answers of any other student. *)
Theorem process_single_image_other_students : forall sample sid page df results answers
  results' answers' sid',
  sid' <> sid ->
  process_single_image sample sid page df results answers = Some (results', answers') ->
  dict_get String.eqb sid' answers' = dict_get String.eqb sid' answers /\
  forall k, dict_get pair_eqb (sid', k) results' = dict_get pair_eqb (sid', k) results.
Proof.
  intros sample sid page df results answers results' answers' sid' Hne Hproc.
  assert (Hs : String.eqb sid' sid = false) by (apply String.eqb_neq; exact Hne).
  unfold process_single_image in Hproc.
  destruct (page_rows page df) as [|r rs]; [injection Hproc as <- <-; split; reflexivity|].
  unfold process_bubbles in Hproc.
  destruct (detect_bubble_values sample (r :: rs)) as [|kv kvs];
    [injection Hproc as <- <-; split; reflexivity|].
  destruct (bubble_loop sid (page_threshold (kv :: kvs))
              {| ls_results := results; ls_numeric := []; ls_regular := [] |}
              (kv :: kvs)) as [st|] eqn:Hloop; [|discriminate].
  destruct (store_regular _ _ _) as [m|]; [|discriminate].
  injection Hproc as <- <-; split.
  - unfold set_student_answers; rewrite (dict_get_set String.eqb String.eqb_eq), Hs.
    destruct (dict_get String.eqb sid answers); [reflexivity|].
    rewrite (dict_get_set String.eqb String.eqb_eq), Hs; reflexivity.
  - intro k; rewrite (dict_get_set pair_eqb pair_eqb_spec), pair_eqb_other by exact Hne.
    exact (bubble_loop_results_other _ _ _ _ _ Hloop sid' k Hne).
Qed.

(** Witness of X7: student s's page 1 leaves student t untouched. *)
Lemma process_single_image_other_students_witness :
  exists results' answers',
    ("t" <> "s" /\
     process_single_image two_page_sample "s" 1 two_page_rows
       [("t", "1.i_a", 40)] [("t", [("1.i", ["b"])])] = Some (results', answers')) /\
    dict_get String.eqb "t" answers' = dict_get String.eqb "t" [("t", [("1.i", ["b"])])] /\
    forall k, dict_get pair_eqb ("t", k) results' = dict_get pair_eqb ("t", k) [("t", "1.i_a", 40)].
Proof.
  do 2 eexists.
  assert (H1 : "t" <> "s") by discriminate.
  assert (H2 : process_single_image two_page_sample "s" 1 two_page_rows
                 [("t", "1.i_a", 40)] [("t", [("1.i", ["b"])])] =
               Some ([("t", "1.i_a", 40); ("s", "1.i_a", 50); ("s", "1.i_b", 250);
                      ("s", "page1_threshold", 300 # 2)],
                     [("t", [("1.i", ["b"])]); ("s", [("1.i", ["a"])])])) by reflexivity.
  split; [split; [exact H1|exact H2]|].
  exact (process_single_image_other_students _ _ _ _ _ _ _ _ _ H1 H2).
Defined.

(** ** process_single_image only appends answers *)

Lemma store_numeric_prefix : forall numeric m q,
  exists suffix, question_tokens q (store_numeric numeric m) =
                 (question_tokens q m ++ suffix)%list.
Proof.
  induction numeric as [|[question positions] rest IH]; intros m q; cbn [store_numeric].
  - exists []; rewrite app_nil_r; reflexivity.
  - destruct (numeric_answer positions) as [ans|].
    + destruct (IH (dict_set String.eqb question
                      (question_tokens question m ++ [ans])%list m) q) as [s Hs].
      rewrite Hs, question_tokens_set.
      destruct (String.eqb q question) eqn:E.
      * apply String.eqb_eq in E; subst; exists ([ans] ++ s)%list; rewrite app_assoc;
          reflexivity.
      * exists s; reflexivity.
    + apply IH.
Qed.

Lemma store_regular_prefix : forall page_bubbles regular m m',
  store_regular page_bubbles regular m = Some m' ->
  forall q, exists suffix, question_tokens q m' = (question_tokens q m ++ suffix)%list.
Proof.
  intros pb; induction regular as [|[question choices] rest IH]; intros m m' H q;
    cbn [store_regular] in H.
  - injection H as <-; exists []; rewrite app_nil_r; reflexivity.
  - set (m1 := match dict_get String.eqb question m with
               | Some _ => m
               | None => dict_set String.eqb question [] m
               end) in H.
    assert (Hm1 : forall q', question_tokens q' m1 = question_tokens q' m).
    { intro q'; unfold m1; destruct (dict_get String.eqb question m) eqn:E; [reflexivity|].
      rewrite question_tokens_set; destruct (String.eqb q' question) eqn:E'; [|reflexivity].
      apply String.eqb_eq in E'; subst; unfold question_tokens; rewrite E; reflexivity. }
    destruct (filter_choices pb question _ choices) as [filtered|]; [|discriminate].
    destruct (IH _ _ H q) as [s Hs]; rewrite Hs, question_tokens_set, !Hm1.
    destruct (String.eqb q question) eqn:E.
    + apply String.eqb_eq in E; subst; exists (filtered ++ s)%list; rewrite app_assoc;
        reflexivity.
    + exists s; reflexivity.
Qed.

(** X8: processing an image of student [sid] only appends: for every
    question, the tokens collected before are a prefix of the tokens
    collected after. *)
Theorem process_single_image_appends : forall sample sid page df results answers
  results' answers',
  process_single_image sample sid page df results answers = Some (results', answers') ->
  forall q, exists suffix,
    question_tokens q (student_answers sid answers') =
    (question_tokens q (student_answers sid answers) ++ suffix)%list.
Proof.
  intros sample sid page df results answers results' answers' Hproc q.
  unfold process_single_image in Hproc.
  destruct (page_rows page df) as [|r rs];
    [injection Hproc as <- <-; exists []; rewrite app_nil_r; reflexivity|].
  unfold process_bubbles in Hproc.
  destruct (detect_bubble_values sample (r :: rs)) as [|kv kvs];
    [injection Hproc as <- <-; exists []; rewrite app_nil_r; reflexivity|].
  set (answers1 := match dict_get String.eqb sid answers with
                   | Some _ => answers
                   | None => set_student_answers sid [] answers
                   end) in Hproc.
  assert (Ha1 : student_answers sid answers1 = student_answers sid answers).
  { unfold answers1, student_answers.
    destruct (dict_get String.eqb sid answers) eqn:E; [rewrite E; reflexivity|].
    unfold set_student_answers; rewrite (dict_get_set String.eqb String.eqb_eq),
      String.eqb_refl; reflexivity. }
  destruct (bubble_loop sid (page_threshold (kv :: kvs))
              {| ls_results := results; ls_numeric := []; ls_regular := [] |}
              (kv :: kvs)) as [st|] eqn:Hloop; [|discriminate].
  destruct (store_regular (r :: rs) (ls_regular st)
              (store_numeric (ls_numeric st) (student_answers sid answers1)))
    as [m|] eqn:Hreg; [|discriminate].
  injection Hproc as <- <-.
  assert (Hm : student_answers sid (set_student_answers sid m answers1) = m).
  { unfold student_answers, set_student_answers.
    rewrite (dict_get_set String.eqb String.eqb_eq), String.eqb_refl; reflexivity. }
  rewrite Hm, <- Ha1.
  destruct (store_regular_prefix _ _ _ _ Hreg q) as [s2 H2].
  destruct (store_numeric_prefix (ls_numeric st) (student_answers sid answers1) q) as [s1 H1].
  exists (s1 ++ s2)%list; rewrite H2, H1, app_assoc; reflexivity.
Qed.

(** Witness of X8: page 2 after page 1 for student s keeps the answer a. *)
Lemma process_single_image_appends_witness :
  exists results' answers',
    process_single_image two_page_sample "s" 2 two_page_rows
      [("s", "1.i_a", 50)] [("s", [("1.i", ["a"])])] = Some (results', answers') /\
    forall q, exists suffix,
      question_tokens q (student_answers "s" answers') =
      (question_tokens q (student_answers "s" [("s", [("1.i", ["a"])])]) ++ suffix)%list.
Proof.
  do 2 eexists.
  assert (H : process_single_image two_page_sample "s" 2 two_page_rows
                [("s", "1.i_a", 50)] [("s", [("1.i", ["a"])])] =
              Some ([("s", "1.i_a", 50); ("s", "1.i_e", 50); ("s", "1.i_1-0-5", 250);
                     ("s", "page2_threshold", 300 # 2)],
                    [("s", [("1.i", ["a"])])])) by reflexivity.
  split; [exact H|].
  exact (process_single_image_appends _ _ _ _ _ _ _ _ H).
Defined.

(** ** The columns and rows of the consolidated table *)

Lemma string_ltb_asym : forall a b, String.ltb a b = true -> String.ltb b a = false.
Proof.
  intros a b; unfold String.ltb; rewrite (String.compare_antisym b a).
  destruct (String.compare a b); simpl; congruence.
Qed.

Lemma key_ltb_asym : forall a b, key_ltb a b = true -> key_ltb b a = false.
Proof.
  intros [a1 a2] [b1 b2]; unfold key_ltb; simpl.
  rewrite orb_true_iff, andb_true_iff, Z.ltb_lt, Z.eqb_eq.
  intros [H|[H1 H2]].
  - rewrite orb_false_iff; split; [apply Z.ltb_ge; lia|].
    rewrite andb_false_iff; left; apply Z.eqb_neq; lia.
  - subst; rewrite Z.ltb_irrefl, Z.eqb_refl; simpl; apply string_ltb_asym; exact H2.
Qed.

Lemma insert_keyed_sorted : forall x l, Sorted key_le l -> Sorted key_le (insert_keyed x l).
Proof.
  intros x l; induction l as [|y t IH]; intro Hs; simpl.
  - repeat constructor.
  - destruct (key_ltb (fst x) (fst y)) eqn:E.
    + constructor; [exact Hs|constructor; apply key_ltb_asym; exact E].
    + inversion Hs as [|? ? Ht Hh]; subst.
      constructor; [apply IH; exact Ht|].
      destruct t as [|z t]; simpl; [constructor; exact E|].
      destruct (key_ltb (fst x) (fst z)); constructor; [exact E|].
      inversion Hh; assumption.
Qed.

Lemma sort_keyed_sorted : forall l, Sorted key_le (sort_keyed l).
Proof.
  induction l as [|x t IH]; simpl; [constructor|apply insert_keyed_sorted; exact IH].
Qed.

Lemma keyed_questions_keys : forall qs kq,
  keyed_questions qs = Some kq ->
  Forall (fun p => question_sort_key (snd p) = Some (fst p)) kq.
Proof.
  induction qs as [|q t IH]; intros kq H; simpl in H.
  - injection H as <-; constructor.
  - destruct (question_sort_key q) as [k|] eqn:Ek; [|discriminate].
    destruct (keyed_questions t) as [l|] eqn:E; [|discriminate].
    injection H as <-; constructor; [exact Ek|apply IH; reflexivity].
Qed.


Lemma add_unique_inv : forall l acc x, In x (add_unique l acc) -> In x l \/ In x acc.
Proof.
  induction l as [|y t IH]; intros acc x Hx; simpl in Hx; [right; exact Hx|].
  destruct (IH _ _ Hx) as [H|H]; [left; right; exact H|].
  destruct (existsb (String.eqb y) acc); [right; exact H|].
  apply in_app_or in H; destruct H as [H|[<-|[]]]; [right; exact H|left; left; reflexivity].
Qed.

Lemma add_unique_NoDup : forall l acc, NoDup acc -> NoDup (add_unique l acc).
Proof.
  induction l as [|y t IH]; intros acc Hnd; simpl; [exact Hnd|].
  apply IH; destruct (existsb (String.eqb y) acc) eqn:E; [exact Hnd|].
  apply (Permutation_NoDup (Permutation_cons_append acc y)).
  constructor; [|exact Hnd].
  intro Hin; assert (Hc : existsb (String.eqb y) acc = true).
  { apply existsb_exists; exists y; split; [exact Hin|apply String.eqb_refl]. }
  congruence.
Qed.

Lemma all_questions_NoDup : forall answers, NoDup (all_questions answers).
Proof.
  intro answers; unfold all_questions.
  assert (H : forall acc, NoDup acc ->
            NoDup (fold_left (fun acc sa => add_unique (map fst (snd sa)) acc) answers acc)).
  { induction answers as [|sa t IH]; intros acc Hnd; simpl; [exact Hnd|].
    apply IH, add_unique_NoDup; exact Hnd. }
  apply H; constructor.
Qed.

Lemma all_questions_inv : forall answers q,
  In q (all_questions answers) ->
  exists sid m, In (sid, m) answers /\ In q (map fst m).
Proof.
  intro answers; unfold all_questions.
  assert (H : forall acc q,
            In q (fold_left (fun acc sa => add_unique (map fst (snd sa)) acc) answers acc) ->
            In q acc \/ exists sid m, In (sid, m) answers /\ In q (map fst m)).
  { induction answers as [|[sid m] t IH]; intros acc q Hq; simpl in Hq; [left; exact Hq|].
    destruct (IH _ _ Hq) as [H|(sid' & m' & Hin & Hq')].
    - destruct (add_unique_inv _ _ _ H) as [H'|H']; [right|left; exact H'].
      exists sid, m; split; [left; reflexivity|exact H'].
    - right; exists sid', m'; split; [right; exact Hin|exact Hq']. }
  intros q Hq; destruct (H [] q Hq) as [[]|Hex]; exact Hex.
Qed.

(** X9: the columns of the written consolidated table are the questions
    answered by any student, each exactly once, in ascending order of the
    key (problem number, subquestion). *)
Theorem consolidated_columns : forall answers columns rows,
  create_consolidated_output answers = Written columns rows ->
  NoDup columns /\
  (forall q, In q columns <-> exists sid m, In (sid, m) answers /\ In q (map fst m)) /\
  exists kq, map snd kq = columns /\
    Forall (fun p => question_sort_key (snd p) = Some (fst p)) kq /\
    Sorted key_le kq.
Proof.
  intros answers columns rows Hout; unfold create_consolidated_output in Hout.
  destruct answers as [|a0 rest]; [discriminate|].
  destruct (keyed_questions (all_questions (a0 :: rest))) as [kq|] eqn:Ekq; [|discriminate].
  injection Hout as <- _.
  pose proof (sort_keyed_perm kq) as Hp.
  pose proof (keyed_questions_snd _ _ Ekq) as Hsnd.
  assert (Hpc : Permutation (all_questions (a0 :: rest)) (map snd (sort_keyed kq))).
  { rewrite <- Hsnd; apply Permutation_map; exact Hp. }
  split; [apply (Permutation_NoDup Hpc), all_questions_NoDup|]; split.
  - intro q; split; intro Hq.
    + apply all_questions_inv; apply (Permutation_in _ (Permutation_sym Hpc)); exact Hq.
    + destruct Hq as (sid & m & Hin & Hqm).
      apply (Permutation_in _ Hpc); apply (all_questions_In _ sid m); assumption.
  - exists (sort_keyed kq); split; [reflexivity|]; split; [|apply sort_keyed_sorted].
    apply (Permutation_Forall Hp); apply (keyed_questions_keys _ _ Ekq).
Qed.

(** Witness of X9: two students, questions 10.i, 2.ii and 2.i. *)
Lemma consolidated_columns_witness :
  exists columns rows,
    create_consolidated_output
      [("b", [("10.i", ["a"]); ("2.ii", ["c"])]); ("a", [("2.i", ["b"])])] =
      Written columns rows /\
    columns = ["2.i"; "2.ii"; "10.i"] /\
    (NoDup columns /\
     (forall q, In q columns <-> exists sid m,
        In (sid, m) [("b", [("10.i", ["a"]); ("2.ii", ["c"])]); ("a", [("2.i", ["b"])])] /\
        In q (map fst m)) /\
     exists kq, map snd kq = columns /\
       Forall (fun p => question_sort_key (snd p) = Some (fst p)) kq /\
       Sorted key_le kq).
Proof.
  do 2 eexists.
  assert (H : create_consolidated_output
                [("b", [("10.i", ["a"]); ("2.ii", ["c"])]); ("a", [("2.i", ["b"])])] =
              Written ["2.i"; "2.ii"; "10.i"]
                [("a", [("2.i", "b"); ("2.ii", ""); ("10.i", "")]);
                 ("b", [("2.i", ""); ("2.ii", "c"); ("10.i", "a")])]) by reflexivity.
  split; [exact H|]; split; [reflexivity|].
  exact (consolidated_columns _ _ _ H).
Defined.


(** X11: the rows of the written consolidated table are the student ids in
    ascending order, each row holding one cell per column, in column
    order. *)
Theorem consolidated_rows : forall answers columns rows,
  create_consolidated_output answers = Written columns rows ->
  Permutation (map fst answers) (map fst rows) /\
  Sorted str_le (map fst rows) /\
  forall sid row, In (sid, row) rows -> map fst row = columns.
Proof.
  intros answers columns rows Hout; unfold create_consolidated_output in Hout.
  destruct answers as [|a0 rest]; [discriminate|].
  destruct (keyed_questions (all_questions (a0 :: rest))) as [kq|]; [|discriminate].
  injection Hout as <- <-.
  rewrite map_map; cbn [fst]; rewrite map_id.
  split; [exact (sorted_str_perm (map fst (a0 :: rest)))|].
  split; [exact (sorted_str_sorted (map fst (a0 :: rest)))|].
  intros sid row Hin; apply in_map_iff in Hin; destruct Hin as (s & Hs & _).
  injection Hs as _ <-; rewrite map_map; cbn [fst]; apply map_id.
Qed.

(** Witness of X11 on [two_choice_answers]. *)
Lemma consolidated_rows_witness :
  (create_consolidated_output two_choice_answers =
     Written ["3.i"] [("abc123", [("3.i", "a,c")])]) /\
  Permutation (map fst two_choice_answers) (map fst [("abc123", [("3.i", "a,c")])]) /\
  Sorted str_le (map fst [("abc123", [("3.i", "a,c")])]) /\
  forall sid row, In (sid, row) [("abc123", [("3.i", "a,c")])] -> map fst row = ["3.i"].
Proof.
  assert (H : create_consolidated_output two_choice_answers =
                Written ["3.i"] [("abc123", [("3.i", "a,c")])]) by reflexivity.
  split; [exact H|exact (consolidated_rows _ _ _ H)].
Defined.

(** ** Splitting the bubble keys *)

Lemma string_of_list_ascii_app : forall l1 l2,
  string_of_list_ascii (l1 ++ l2) = (string_of_list_ascii l1 ++ string_of_list_ascii l2)%string.
Proof. induction l1 as [|a t IH]; intro l2; simpl; [reflexivity|rewrite IH; reflexivity]. Qed.

Lemma py_split_aux_no_sep : forall sep s cur,
  py_contains sep s = false ->
  py_split_aux sep s cur = [(string_of_list_ascii (rev cur) ++ s)%string].
Proof.
  intros sep; induction s as [|a s IH]; intros cur H; simpl in H |- *.
  - rewrite string_append_empty_r; reflexivity.
  - apply orb_false_iff in H; destruct H as [Ha Hs]; rewrite Ha, IH by exact Hs.
    simpl rev; rewrite string_of_list_ascii_app, <- string_append_assoc; reflexivity.
Qed.

Lemma py_split_aux_app_sep : forall sep a b cur,
  py_contains sep a = false ->
  py_split_aux sep (a ++ String sep b) cur =
  (string_of_list_ascii (rev cur) ++ a)%string :: py_split_aux sep b [].
Proof.
  intros sep; induction a as [|c a IH]; intros b cur H; simpl in H |- *.
  - rewrite Ascii.eqb_refl, string_append_empty_r; reflexivity.
  - apply orb_false_iff in H; destruct H as [Hc Ha]; rewrite Hc, IH by exact Ha.
    simpl rev; rewrite string_of_list_ascii_app, <- string_append_assoc; reflexivity.
Qed.

Lemma py_split_app_sep : forall sep a b,
  py_contains sep a = false -> py_split sep (a ++ String sep b) = a :: py_split sep b.
Proof. intros sep a b H; unfold py_split; rewrite py_split_aux_app_sep by exact H; reflexivity. Qed.

Lemma py_split_no_sep : forall sep s, py_contains sep s = false -> py_split sep s = [s].
Proof. intros sep s H; unfold py_split; rewrite py_split_aux_no_sep by exact H; reflexivity. Qed.

Lemma py_split_parts_free : forall c sep s,
  py_contains c s = false -> forall x, In x (py_split sep s) -> py_contains c x = false.
Proof.
  intros c sep s; unfold py_split.
  assert (H : forall s cur, py_contains c s = false ->
            py_contains c (string_of_list_ascii (rev cur)) = false ->
            forall x, In x (py_split_aux sep s cur) -> py_contains c x = false).
  { induction s0 as [|a s' IH]; intros cur Hs Hcur x Hx; simpl in Hs, Hx.
    - destruct Hx as [<-|[]]; exact Hcur.
    - apply orb_false_iff in Hs; destruct Hs as [Ha Hs'].
      destruct (Ascii.eqb a sep).
      + destruct Hx as [<-|Hx]; [exact Hcur|].
        apply (IH [] Hs' eq_refl x Hx).
      + apply (IH (a :: cur) Hs'); [|exact Hx].
        simpl rev; rewrite string_of_list_ascii_app, py_contains_app, Hcur; simpl.
        rewrite Ha; reflexivity. }
  intros Hs x Hx; exact (H s [] Hs eq_refl x Hx).
Qed.

Lemma py_split_nth_free : forall c sep s n,
  py_contains c s = false -> py_contains c (nth n (py_split sep s) EmptyString) = false.
Proof.
  intros c sep s n Hs.
  destruct (nth_in_or_default n (py_split sep s) EmptyString) as [Hin|Hd].
  - exact (py_split_parts_free c sep s Hs _ Hin).
  - rewrite Hd; reflexivity.
Qed.

Lemma key_split : forall a b c,
  py_contains "_"%char a = false -> py_contains "_"%char b = false ->
  py_contains "_"%char c = false ->
  py_split "_"%char (a ++ "." ++ b ++ "_" ++ c)%string = [(a ++ "." ++ b)%string; c].
Proof.
  intros a b c Ha Hb Hc.
  replace (a ++ "." ++ b ++ "_" ++ c)%string with ((a ++ "." ++ b) ++ String "_" c)%string
    by (rewrite <- string_append_assoc; reflexivity).
  rewrite py_split_app_sep, py_split_no_sep by (rewrite ?py_contains_app; simpl;
    rewrite ?Ha, ?Hb, ?Hc; reflexivity).
  reflexivity.
Qed.

(** X12: for a multiple-choice row without '_' in its question,
    subquestion and choice, the key built by [detect_bubble_values] splits
    back into ["question.subquestion"] and the choice, and the bubble loop
    records the choice exactly when the bubble is marked and the choice
    label is not itself a numeric code. *)
Theorem regular_key_round_trip : forall sample thr row,
  py_contains "_"%char (row_question row) = false ->
  py_contains "_"%char (row_subquestion row) = false ->
  py_contains "_"%char (row_choice row) = false ->
  is_numeric_code (row_question row) = false ->
  py_split "_"%char (fst (bubble_key_value sample row)) =
    [(row_question row ++ "." ++ row_subquestion row)%string; row_choice row] /\
  regular_choice thr (bubble_key_value sample row) =
    if is_numeric_code (row_choice row) then None
    else if is_marked (sample row) thr
    then Some ((row_question row ++ "." ++ row_subquestion row)%string, row_choice row)
    else None.
Proof.
  intros sample thr row Hq Hs Hc Hnum.
  unfold bubble_key_value; rewrite Hnum; simpl fst.
  pose proof (key_split _ _ _ Hq Hs Hc) as Hsplit.
  split; [exact Hsplit|].
  unfold regular_choice; cbn [fst snd]; rewrite Hsplit; reflexivity.
Qed.

(** Witness of X12 on the multiple-choice row (1, i, a). *)
Lemma regular_key_round_trip_witness :
  (py_contains "_"%char (row_question (mk_row 1 "1" "i" "a")) = false /\
   py_contains "_"%char (row_subquestion (mk_row 1 "1" "i" "a")) = false /\
   py_contains "_"%char (row_choice (mk_row 1 "1" "i" "a")) = false /\
   is_numeric_code (row_question (mk_row 1 "1" "i" "a")) = false) /\
  py_split "_"%char (fst (bubble_key_value (fun _ => 50) (mk_row 1 "1" "i" "a"))) =
    [(row_question (mk_row 1 "1" "i" "a") ++ "." ++ row_subquestion (mk_row 1 "1" "i" "a"))%string;
     row_choice (mk_row 1 "1" "i" "a")] /\
  regular_choice 120 (bubble_key_value (fun _ => 50) (mk_row 1 "1" "i" "a")) =
    if is_numeric_code (row_choice (mk_row 1 "1" "i" "a")) then None
    else if is_marked ((fun _ => 50) (mk_row 1 "1" "i" "a")) 120
    then Some ((row_question (mk_row 1 "1" "i" "a") ++ "." ++
                row_subquestion (mk_row 1 "1" "i" "a"))%string,
               row_choice (mk_row 1 "1" "i" "a"))
    else None.
Proof.
  assert (H1 : py_contains "_"%char (row_question (mk_row 1 "1" "i" "a")) = false)
    by reflexivity.
  assert (H2 : py_contains "_"%char (row_subquestion (mk_row 1 "1" "i" "a")) = false)
    by reflexivity.
  assert (H3 : py_contains "_"%char (row_choice (mk_row 1 "1" "i" "a")) = false)
    by reflexivity.
  assert (H4 : is_numeric_code (row_question (mk_row 1 "1" "i" "a")) = false)
    by reflexivity.
  split; [repeat split; assumption|].
  exact (regular_key_round_trip (fun _ => 50) 120 _ H1 H2 H3 H4).
Defined.

(** X13: for a numeric row ([question] of the form "N-position-digit")
    without '_' in its question and subquestion, the bubble loop records
    the digit at the parsed position of question "N.subquestion" exactly
    when the digit is D or S or the bubble is marked, and never records
    the bubble as a multiple-choice answer. *)
Theorem numeric_key_round_trip : forall sample thr row,
  py_contains "_"%char (row_question row) = false ->
  py_contains "_"%char (row_subquestion row) = false ->
  is_numeric_code (row_question row) = true ->
  recorded_digit thr (bubble_key_value sample row) =
    match py_int_of_string (nth 1 (py_split "-"%char (row_question row)) EmptyString) with
    | Some position =>
        let digit := nth 2 (py_split "-"%char (row_question row)) EmptyString in
        if is_DS digit || is_marked (sample row) thr
        then Some ((nth 0 (py_split "-"%char (row_question row)) EmptyString ++ "." ++
                    row_subquestion row)%string, position, digit)
        else None
    | None => None
    end /\
  regular_choice thr (bubble_key_value sample row) = None.
Proof.
  intros sample thr row Hq Hs Hnum.
  assert (Hb : py_contains "_"%char
                 (nth 0 (py_split "-"%char (row_question row)) EmptyString) = false)
    by (apply py_split_nth_free; exact Hq).
  pose proof (key_split _ _ _ Hb Hs Hq) as Hsplit.
  unfold bubble_key_value, recorded_digit, regular_choice; rewrite Hnum.
  destruct (is_DS (nth 2 (py_split "-"%char (row_question row)) EmptyString)) eqn:Eds;
    cbn [fst snd]; rewrite Hsplit, Hnum; split; try reflexivity;
    destruct (py_int_of_string _); rewrite ?Eds; reflexivity.
Qed.

(** Witness of X13 on the numeric row 1-0-5 of question 1.i. *)
Lemma numeric_key_round_trip_witness :
  (py_contains "_"%char (row_question (mk_row 2 "1-0-5" "i" "e")) = false /\
   py_contains "_"%char (row_subquestion (mk_row 2 "1-0-5" "i" "e")) = false /\
   is_numeric_code (row_question (mk_row 2 "1-0-5" "i" "e")) = true) /\
  recorded_digit 120 (bubble_key_value (fun _ => 50) (mk_row 2 "1-0-5" "i" "e")) =
    match py_int_of_string
            (nth 1 (py_split "-"%char (row_question (mk_row 2 "1-0-5" "i" "e"))) EmptyString) with
    | Some position =>
        let digit := nth 2 (py_split "-"%char (row_question (mk_row 2 "1-0-5" "i" "e")))
                       EmptyString in
        if is_DS digit || is_marked ((fun _ => 50) (mk_row 2 "1-0-5" "i" "e")) 120
        then Some ((nth 0 (py_split "-"%char (row_question (mk_row 2 "1-0-5" "i" "e")))
                      EmptyString ++ "." ++
                    row_subquestion (mk_row 2 "1-0-5" "i" "e"))%string, position, digit)
        else None
    | None => None
    end /\
  regular_choice 120 (bubble_key_value (fun _ => 50) (mk_row 2 "1-0-5" "i" "e")) = None.
Proof.
  assert (H1 : py_contains "_"%char (row_question (mk_row 2 "1-0-5" "i" "e")) = false)
    by reflexivity.
  assert (H2 : py_contains "_"%char (row_subquestion (mk_row 2 "1-0-5" "i" "e")) = false)
    by reflexivity.
  assert (H3 : is_numeric_code (row_question (mk_row 2 "1-0-5" "i" "e")) = true)
    by reflexivity.
  split; [repeat split; assumption|].
  exact (numeric_key_round_trip (fun _ => 50) 120 _ H1 H2 H3).
Defined.

(** ** Reading a bubble: the box and numpy's slicing *)

Lemma np_index_bounds : forall i n, (0 <= n)%Z -> (0 <= np_index i n <= n)%Z.
Proof. intros i n Hn; unfold np_index; destruct (Z.ltb_spec i 0); lia. Qed.

Lemma is_marked_255 : forall thr, is_marked 255 thr = false.
Proof. intro thr; unfold is_marked; rewrite andb_false_r; reflexivity. Qed.

(** X14: a bubble whose box starts at or beyond the right or bottom edge of
    the image has an empty region: it reads 255 and is never marked. *)
Theorem bubble_off_page_blank : forall mean h w offset dpi row,
  (0 <= h)%Z -> (0 <= w)%Z ->
  ((w <= point_to_pixel (row_Xpos row - offset) (fst dpi))%Z \/
   (h <= point_to_pixel (row_Ypos row - offset) (snd dpi))%Z) ->
  bubble_sample mean (h, w) offset dpi row = 255 /\
  forall thr, is_marked (bubble_sample mean (h, w) offset dpi row) thr = false.
Proof.
  intros mean h w offset dpi row Hh Hw Hoff.
  assert (Hs : bubble_sample mean (h, w) offset dpi row = 255).
  { unfold bubble_sample, bubble_box, box_intensity.
    set (L := point_to_pixel (row_Xpos row - offset) (fst dpi)).
    set (T := point_to_pixel (row_Ypos row - offset) (snd dpi)).
    set (R := point_to_pixel (row_Xpos row + offset) (fst dpi)).
    set (B := point_to_pixel (row_Ypos row + offset) (snd dpi)).
    assert (Hz : (slice_length (Z.max 0 T) (Z.min h B) h *
                  slice_length (Z.max 0 L) (Z.min w R) w = 0)%Z).
    { unfold slice_length.
      pose proof (np_index_bounds (Z.min h B) h Hh).
      pose proof (np_index_bounds (Z.min w R) w Hw).
      destruct Hoff as [Hl|Ht].
      - assert (E : np_index (Z.max 0 L) w = w).
        { unfold np_index; destruct (Z.ltb_spec (Z.max 0 L) 0); lia. }
        rewrite E; replace (Z.max 0 (np_index (Z.min w R) w - w)) with 0%Z by lia.
        apply Z.mul_0_r.
      - assert (E : np_index (Z.max 0 T) h = h).
        { unfold np_index; destruct (Z.ltb_spec (Z.max 0 T) 0); lia. }
        rewrite E; replace (Z.max 0 (np_index (Z.min h B) h - h)) with 0%Z by lia.
        apply Z.mul_0_l. }
    rewrite Hz; reflexivity. }
  split; [exact Hs|intro thr; rewrite Hs; apply is_marked_255].
Qed.

(** Witness of X14: a bubble at x = 1000pt on a 300-pixel-wide image. *)
Lemma bubble_off_page_blank_witness :
  ((0 <= 400)%Z /\ (0 <= 300)%Z /\
   ((300 <= point_to_pixel (row_Xpos {| row_page := 1; row_question := "1";
        row_subquestion := "i"; row_choice := "a"; row_Xpos := 1000; row_Ypos := 50 |}
        - 5) (fst ((200 # 1, 200 # 1) : Q * Q)))%Z \/
    (400 <= point_to_pixel (row_Ypos {| row_page := 1; row_question := "1";
        row_subquestion := "i"; row_choice := "a"; row_Xpos := 1000; row_Ypos := 50 |}
        - 5) (snd ((200 # 1, 200 # 1) : Q * Q)))%Z)) /\
  bubble_sample (fun _ => 0) (400%Z, 300%Z) 5 ((200 # 1, 200 # 1) : Q * Q)
    {| row_page := 1; row_question := "1"; row_subquestion := "i"; row_choice := "a";
       row_Xpos := 1000; row_Ypos := 50 |} = 255 /\
  forall thr, is_marked (bubble_sample (fun _ => 0) (400%Z, 300%Z) 5 ((200 # 1, 200 # 1) : Q * Q)
    {| row_page := 1; row_question := "1"; row_subquestion := "i"; row_choice := "a";
       row_Xpos := 1000; row_Ypos := 50 |}) thr = false.
Proof.
  assert (H1 : (0 <= 400)%Z) by lia.
  assert (H2 : (0 <= 300)%Z) by lia.
  assert (H3 : (300 <= point_to_pixel (row_Xpos {| row_page := 1; row_question := "1";
        row_subquestion := "i"; row_choice := "a"; row_Xpos := 1000; row_Ypos := 50 |}
        - 5) (fst ((200 # 1, 200 # 1) : Q * Q)))%Z \/
    (400 <= point_to_pixel (row_Ypos {| row_page := 1; row_question := "1";
        row_subquestion := "i"; row_choice := "a"; row_Xpos := 1000; row_Ypos := 50 |}
        - 5) (snd ((200 # 1, 200 # 1) : Q * Q)))%Z) by (left; vm_compute; discriminate).
  split; [split; [exact H1|split; [exact H2|exact H3]]|].
  exact (bubble_off_page_blank (fun _ => 0) 400%Z 300%Z 5 ((200 # 1, 200 # 1) : Q * Q) _ H1 H2 H3).
Defined.

(** X15: a bubble whose box ends above the image (bottom pixel row [B]
    with [-h < B < 0]) does not get an empty region: the negative bound
    counts from the bottom, so the rows read are [0 .. h + B - 1], and the
    bubble reads the mean of that band whenever its column range is not
    empty. *)
Theorem bubble_above_page_wraps : forall mean h w offset dpi row,
  0 <= offset -> 0 <= snd dpi ->
  (- h < point_to_pixel (row_Ypos row + offset) (snd dpi) < 0)%Z ->
  let B := point_to_pixel (row_Ypos row + offset) (snd dpi) in
  let left_ := Z.max 0 (point_to_pixel (row_Xpos row - offset) (fst dpi)) in
  let right_ := Z.min w (point_to_pixel (row_Xpos row + offset) (fst dpi)) in
  (0 < slice_length 0 B h)%Z /\
  bubble_sample mean (h, w) offset dpi row =
    if (0 <? slice_length left_ right_ w)%Z
    then mean (0%Z, (h + B)%Z, np_index left_ w, np_index right_ w)
    else 255.
Proof.
  intros mean h w offset dpi row Hoff Hdpi HB B left_ right_.
  assert (HT : (point_to_pixel (row_Ypos row - offset) (snd dpi) <= B)%Z).
  { unfold B, point_to_pixel; apply py_int_mono.
    unfold Qdiv; apply Qmult_le_compat_r; [|vm_compute; discriminate].
    apply Qmult_le_compat_r; [lra|exact Hdpi]. }
  fold B in HB.
  assert (Hrows : np_index 0 h = 0%Z /\ np_index B h = (h + B)%Z).
  { unfold np_index; split; [simpl; lia|destruct (Z.ltb_spec B 0); lia]. }
  assert (Hlen : slice_length 0 B h = (h + B)%Z).
  { unfold slice_length; destruct Hrows as [-> ->]; lia. }
  split; [rewrite Hlen; lia|].
  unfold bubble_sample, bubble_box, box_intensity; fold B left_ right_.
  replace (Z.max 0 (point_to_pixel (row_Ypos row - offset) (snd dpi))) with 0%Z by lia.
  replace (Z.min h B) with B by lia.
  rewrite Hlen; destruct Hrows as [-> ->].
  destruct (Z.ltb_spec 0 (slice_length left_ right_ w)) as [Hc|Hc].
  - replace (0 <? (h + B) * slice_length left_ right_ w)%Z with true
      by (symmetry; apply Z.ltb_lt; apply Z.mul_pos_pos; lia).
    reflexivity.
  - replace (0 <? (h + B) * slice_length left_ right_ w)%Z with false; [reflexivity|].
    symmetry; apply Z.ltb_ge.
    assert (Hz : slice_length left_ right_ w = 0%Z)
      by (unfold slice_length in *; lia).
    rewrite Hz; lia.
Qed.

(** Witness of X15: a bubble 20pt above the top of a 400x600 image is read
    over the rows 0..358 (the mean function here returns the end row). *)
Lemma bubble_above_page_wraps_witness :
  0 <= 5 /\ 0 <= snd ((200 # 1, 200 # 1) : Q * Q) /\
  (- 400 < point_to_pixel (row_Ypos {| row_page := 1; row_question := "1";
        row_subquestion := "i"; row_choice := "a"; row_Xpos := 100; row_Ypos := -20 |}
        + 5) (snd ((200 # 1, 200 # 1) : Q * Q)) < 0)%Z /\
  bubble_sample (fun '(r0, r1, c0, c1) => inject_Z r1) (400%Z, 600%Z) 5
    ((200 # 1, 200 # 1) : Q * Q)
    {| row_page := 1; row_question := "1"; row_subquestion := "i"; row_choice := "a";
       row_Xpos := 100; row_Ypos := -20 |} = inject_Z 359.
Proof.
  assert (H1 : 0 <= 5) by (vm_compute; discriminate).
  assert (H2 : 0 <= snd ((200 # 1, 200 # 1) : Q * Q)) by (vm_compute; discriminate).
  assert (H3 : (- 400 < point_to_pixel (row_Ypos {| row_page := 1; row_question := "1";
        row_subquestion := "i"; row_choice := "a"; row_Xpos := 100; row_Ypos := -20 |}
        + 5) (snd ((200 # 1, 200 # 1) : Q * Q)) < 0)%Z) by (vm_compute; split; reflexivity).
  split; [exact H1|split; [exact H2|split; [exact H3|]]].
  destruct (bubble_above_page_wraps (fun '(r0, r1, c0, c1) => inject_Z r1) 400%Z 600%Z 5
              ((200 # 1, 200 # 1) : Q * Q) _ H1 H2 H3) as [_ E].
  rewrite E; vm_compute; reflexivity.
Defined.

(** ** process_directory: grouping, main files and overlays *)

Lemma string_compare_trans : forall a b c,
  String.compare a b <> Gt -> String.compare b c <> Gt -> String.compare a c <> Gt.
Proof.
  induction a as [|x a IH]; intros [|y b] [|z c]; simpl; try congruence.
  unfold Ascii.compare.
  destruct (N.compare_spec (N_of_ascii x) (N_of_ascii y)) as [Hxy|Hxy|Hxy];
  destruct (N.compare_spec (N_of_ascii y) (N_of_ascii z)) as [Hyz|Hyz|Hyz];
  destruct (N.compare_spec (N_of_ascii x) (N_of_ascii z)) as [Hxz|Hxz|Hxz];
  try lia; try congruence.
  apply IH.
Qed.

Lemma str_le_trans : forall a b c, str_le a b -> str_le b c -> str_le a c.
Proof.
  unfold str_le, String.leb; intros a b c Hab Hbc.
  destruct (String.compare a c) eqn:E; try reflexivity.
  exfalso; apply (string_compare_trans a b c); [| |exact E];
    intro H; rewrite H in *; discriminate.
Qed.

Lemma str_le_refl : forall a, str_le a a.
Proof.
  unfold str_le, String.leb; induction a as [|x a IH]; simpl; [reflexivity|].
  unfold Ascii.compare; rewrite N.compare_refl; exact IH.
Qed.

Lemma sorted_str_head_le : forall l x t,
  sorted_str l = x :: t -> In x l /\ forall p, In p l -> str_le x p.
Proof.
  intros l x t E.
  pose proof (sorted_str_perm l) as Hp; rewrite E in Hp.
  pose proof (sorted_str_sorted l) as Hs; rewrite E in Hs.
  apply Sorted_StronglySorted in Hs; [|intros a b c; apply str_le_trans].
  inversion Hs as [|? ? _ Hall]; subst.
  split; [apply (Permutation_in _ (Permutation_sym Hp)); left; reflexivity|].
  intros p Hin; apply (Permutation_in _ Hp) in Hin; destruct Hin as [<-|Hin];
    [apply str_le_refl|rewrite Forall_forall in Hall; exact (Hall p Hin)].
Qed.

Lemma Permutation_filter_any : forall {A : Type} (f : A -> bool) l l',
  Permutation l l' -> Permutation (filter f l) (filter f l').
Proof.
  intros A f l l' H; induction H; simpl.
  - constructor.
  - destruct (f x); [constructor|]; exact IHPermutation.
  - destruct (f x), (f y); try constructor; reflexivity.
  - transitivity (filter f l'); assumption.
Qed.

Lemma dict_set_In_any : forall {V : Type} (d : list (string * V)) k v x,
  In x (dict_set String.eqb k v d) -> x = (k, v) \/ In x d.
Proof.
  intros V; induction d as [|[k2 v2] t IH]; intros k v x; simpl.
  - intros [<-|[]]; left; reflexivity.
  - destruct (String.eqb k k2) eqn:E; simpl.
    + apply String.eqb_eq in E; subst k2.
      intros [<-|H]; [left; reflexivity|right; right; exact H].
    + intros [<-|H]; [right; left; reflexivity|].
      destruct (IH k v x H) as [H'|H']; [left; exact H'|right; right; exact H'].
Qed.

Lemma dict_set_NoDup_any : forall {V : Type} (d : list (string * V)) k v,
  NoDup (map fst d) -> NoDup (map fst (dict_set String.eqb k v d)).
Proof.
  intros V; induction d as [|[k2 v2] t IH]; intros k v Hnd; simpl.
  - repeat constructor; intros [].
  - inversion Hnd as [|? ? Hnotin Hnd']; subst.
    destruct (String.eqb k k2) eqn:E; simpl; [exact Hnd|].
    constructor; [|apply IH; exact Hnd'].
    intro Hin; apply in_map_iff in Hin; destruct Hin as [[k3 v3] [Hk3 Hin]]; simpl in Hk3; subst k3.
    destruct (dict_set_In_any _ _ _ _ Hin) as [Heq|Hin'].
    + injection Heq as -> _; rewrite String.eqb_refl in E; discriminate.
    + apply Hnotin, (in_map fst _ _ Hin').
Qed.

Lemma dict_get_In_any : forall {V : Type} (d : list (string * V)) k v,
  dict_get String.eqb k d = Some v -> In (k, v) d.
Proof.
  intros V; induction d as [|[k2 v2] t IH]; intros k v H; simpl in H; [discriminate|].
  destruct (String.eqb k k2) eqn:E.
  - apply String.eqb_eq in E; subst k2; injection H as ->; left; reflexivity.
  - right; exact (IH _ _ H).
Qed.

Lemma dict_set_append_perm : forall {A : Type} (d : list (string * list A)) k v,
  Permutation
    (List.concat (map snd (dict_set String.eqb k
       ((match dict_get String.eqb k d with Some l => l | None => [] end) ++ v)%list d)))
    (List.concat (map snd d) ++ v)%list.
Proof.
  intros A; induction d as [|[k2 v2] t IH]; intros k v; simpl.
  - rewrite !app_nil_r; reflexivity.
  - destruct (String.eqb k k2); simpl.
    + rewrite <- !app_assoc; apply Permutation_app_head, Permutation_app_comm.
    + rewrite <- app_assoc; apply Permutation_app_head, IH.
Qed.

Lemma group_files_inv : forall files acc,
  NoDup (map fst acc) ->
  (forall k fl, In (k, fl) acc -> fl <> [] /\ forall p, In p fl -> file_key p = Some k) ->
  NoDup (map fst (group_files files acc)) /\
  (forall k fl, In (k, fl) (group_files files acc) ->
     fl <> [] /\ forall p, In p fl -> file_key p = Some k) /\
  Permutation (List.concat (map snd (group_files files acc)))
              (List.concat (map snd acc) ++ filter has_key files)%list.
Proof.
  induction files as [|p rest IH]; intros acc Hnd Hg; simpl.
  - rewrite app_nil_r; split; [exact Hnd|split; [exact Hg|reflexivity]].
  - cbn [filter]; unfold has_key at 1; destruct (file_key p) as [k|] eqn:Ek.
    + set (old := match dict_get String.eqb k acc with Some l => l | None => [] end).
      destruct (IH (dict_set String.eqb k (old ++ [p])%list acc)) as (H1 & H2 & H3).
      * apply dict_set_NoDup_any; exact Hnd.
      * intros k' fl Hin; destruct (dict_set_In_any _ _ _ _ Hin) as [Heq|Hin'];
          [|exact (Hg _ _ Hin')].
        injection Heq as -> ->; split; [destruct old; discriminate|].
        intros q Hq; apply in_app_or in Hq; destruct Hq as [Hq|[<-|[]]]; [|exact Ek].
        unfold old in Hq; destruct (dict_get String.eqb k acc) as [l|] eqn:El; [|destruct Hq].
        exact (proj2 (Hg _ _ (dict_get_In_any _ _ _ El)) q Hq).
      * split; [exact H1|split; [exact H2|]].
        rewrite H3; change (p :: filter has_key rest) with ([p] ++ filter has_key rest)%list.
        rewrite app_assoc; apply Permutation_app_tail.
        apply dict_set_append_perm.
    + apply IH; assumption.
Qed.

Lemma py_split_aux_parts_no_sep : forall sep s cur x,
  py_contains sep (string_of_list_ascii (rev cur)) = false ->
  In x (py_split_aux sep s cur) -> py_contains sep x = false.
Proof.
  intros sep; induction s as [|a s IH]; intros cur x Hcur Hx; simpl in Hx.
  - destruct Hx as [<-|[]]; exact Hcur.
  - destruct (Ascii.eqb a sep) eqn:Ea.
    + destruct Hx as [<-|Hx]; [exact Hcur|exact (IH [] x eq_refl Hx)].
    + apply (IH (a :: cur)); [|exact Hx].
      simpl rev; rewrite string_of_list_ascii_app, py_contains_app, Hcur; simpl.
      rewrite Ea; reflexivity.
Qed.

Lemma py_split_parts_no_sep : forall sep s x,
  In x (py_split sep s) -> py_contains sep x = false.
Proof. intros sep s x; apply py_split_aux_parts_no_sep; reflexivity. Qed.

Lemma file_key_student : forall p k,
  file_key p = Some k -> nth 0 (py_split "_"%char k) EmptyString = path_student_id p.
Proof.
  unfold file_key, path_student_id; intros p k.
  destruct (py_split "_"%char (path_stem p)) as [|s [|pg rest]] eqn:E; try discriminate.
  intro H; injection H as <-.
  assert (Hs : py_contains "_"%char s = false)
    by (apply (py_split_parts_no_sep "_"%char (path_stem p)); rewrite E; left; reflexivity).
  change ("_" ++ pg) with (String "_"%char pg); rewrite py_split_app_sep by exact Hs.
  reflexivity.
Qed.

Lemma group_job_spec : forall k fl,
  fl <> [] -> (forall p, In p fl -> file_key p = Some k) ->
  exists student_id main_file file_list,
    group_job (k, fl) = Some (student_id, main_file, file_list) /\
    Permutation fl file_list /\ In main_file fl /\
    (forall p, In p fl -> str_le main_file p) /\
    file_key main_file = Some k /\ student_id = path_student_id main_file.
Proof.
  intros k fl Hne Hk; unfold group_job; cbn [fst snd].
  destruct (sorted_str fl) as [|m t] eqn:E.
  - exfalso; apply Hne; apply Permutation_nil; rewrite <- E; apply Permutation_sym, sorted_str_perm.
  - destruct (sorted_str_head_le fl m t E) as [Hm Hle].
    exists (nth 0 (py_split "_"%char k) EmptyString), m, (m :: t).
    split; [reflexivity|]; split; [rewrite <- E; apply sorted_str_perm|].
    split; [exact Hm|]; split; [exact Hle|]; split; [exact (Hk m Hm)|].
    apply file_key_student, Hk, Hm.
Qed.

Lemma directory_groups_inv : forall image_files,
  let groups := group_files (sorted_str image_files) [] in
  NoDup (map fst groups) /\
  (forall k fl, In (k, fl) groups -> fl <> [] /\ forall p, In p fl -> file_key p = Some k) /\
  Permutation (List.concat (map snd groups)) (filter has_key image_files).
Proof.
  intros image_files; cbv zeta.
  destruct (group_files_inv (sorted_str image_files) [] (NoDup_nil _)) as (H1 & H2 & H3);
    [intros k fl []|].
  split; [exact H1|split; [exact H2|]].
  rewrite H3; simpl; apply Permutation_filter_any, Permutation_sym, sorted_str_perm.
Qed.

Lemma directory_jobs_some : forall image_files job,
  In job (directory_jobs image_files) -> job <> None.
Proof.
  intros image_files job Hin; unfold directory_jobs in Hin.
  apply in_map_iff in Hin; destruct Hin as [[k fl] [<- Hg]].
  destruct (proj1 (proj2 (directory_groups_inv image_files)) k fl Hg) as [Hne Hk].
  destruct (group_job_spec k fl Hne Hk) as (sid & m & l & -> & _); discriminate.
Qed.

(** X16: process_directory groups exactly the files whose stem has at
    least two [_]-separated parts: the group keys are distinct, every group
    is non-empty and holds only files of its key, and the groups together
    are a permutation of the kept files (each kept file lands in exactly one
    group, the others are skipped). *)
Theorem directory_groups_partition : forall image_files,
  let groups := group_files (sorted_str image_files) [] in
  NoDup (map fst groups) /\
  (forall k fl, In (k, fl) groups -> fl <> [] /\ forall p, In p fl -> file_key p = Some k) /\
  Permutation (List.concat (map snd groups)) (filter has_key image_files).
Proof.
  intros image_files; cbv zeta.
  destruct (group_files_inv (sorted_str image_files) [] (NoDup_nil _)) as (Hnd & Hgr & Hp);
    [intros k fl []|].
  split; [exact Hnd|split; [exact Hgr|]].
  rewrite Hp; apply Permutation_filter_any, Permutation_sym, sorted_str_perm.
Qed.

(** X17: every group of process_directory yields a job (its
    [file_list[0]] never raises): the main file is a file of the group and
    of the directory, it is the smallest file of its group, [file_list] is
    the group reordered, and the [student_id] taken from the group key (the
    key of [overlay_images] and of the PDF name) is the [student_id]
    process_single_image takes from the main file's stem. *)
Theorem directory_jobs_main_file : forall image_files job,
  In job (directory_jobs image_files) ->
  exists k fl student_id main_file file_list,
    In (k, fl) (group_files (sorted_str image_files) []) /\
    job = Some (student_id, main_file, file_list) /\
    Permutation fl file_list /\ In main_file fl /\ In main_file image_files /\
    file_key main_file = Some k /\
    (forall p, In p fl -> str_le main_file p) /\
    student_id = path_student_id main_file.
Proof.
  intros image_files job Hin; unfold directory_jobs in Hin.
  apply in_map_iff in Hin; destruct Hin as [[k fl] [<- Hg]].
  destruct (directory_groups_inv image_files) as (_ & Hgr & Hperm).
  destruct (Hgr k fl Hg) as [Hne Hk].
  destruct (group_job_spec k fl Hne Hk) as (sid & m & l & Ej & Hp & Hm & Hle & Hkm & Hsid).
  exists k, fl, sid, m, l.
  split; [exact Hg|split; [exact Ej|split; [exact Hp|split; [exact Hm|]]]].
  split; [|split; [exact Hkm|split; [exact Hle|exact Hsid]]].
  assert (Hc : In m (List.concat (map snd (group_files (sorted_str image_files) [])))).
  { apply in_concat; exists fl; split; [apply (in_map snd _ (k, fl) Hg)|exact Hm]. }
  apply (Permutation_in _ Hperm), filter_In in Hc; exact (proj1 Hc).
Qed.

(** Witness of X17 on a directory holding a main page, a replacement page
    and a file without page part: the first job is student [s1]'s group. *)
Lemma directory_jobs_main_file_witness :
  In (Some ("s1", "p/s1_1.jpg", ["p/s1_1.jpg"; "p/s1_1_b.jpg"]))
     (directory_jobs ["p/s2_1.png"; "p/s1_1_b.jpg"; "p/s1_1.jpg"; "p/notes.jpg"]) /\
  exists k fl student_id main_file file_list,
    In (k, fl) (group_files (sorted_str ["p/s2_1.png"; "p/s1_1_b.jpg"; "p/s1_1.jpg"; "p/notes.jpg"]) []) /\
    Some ("s1", "p/s1_1.jpg", ["p/s1_1.jpg"; "p/s1_1_b.jpg"]) =
      Some (student_id, main_file, file_list) /\
    Permutation fl file_list /\ In main_file fl /\
    In main_file ["p/s2_1.png"; "p/s1_1_b.jpg"; "p/s1_1.jpg"; "p/notes.jpg"] /\
    file_key main_file = Some k /\
    (forall p, In p fl -> str_le main_file p) /\
    student_id = path_student_id main_file.
Proof.
  assert (H : In (Some ("s1", "p/s1_1.jpg", ["p/s1_1.jpg"; "p/s1_1_b.jpg"]))
     (directory_jobs ["p/s2_1.png"; "p/s1_1_b.jpg"; "p/s1_1.jpg"; "p/notes.jpg"]))
    by (vm_compute; left; reflexivity).
  split; [exact H|exact (directory_jobs_main_file _ _ H)].
Defined.

Lemma overlay_images_spec : forall {P : Type} (render : string -> list string -> option P)
  jobs acc,
  (forall j, In j jobs -> j <> None) -> NoDup (map fst acc) ->
  exists ov, overlay_images render jobs acc = Some ov /\ NoDup (map fst ov) /\
  forall sid pages,
    dict_get String.eqb sid ov = Some pages <->
    (exists pre main_file file_list suf,
       jobs = (pre ++ Some (sid, main_file, file_list) :: suf)%list /\
       render main_file file_list = Some pages /\
       forall m fl, In (Some (sid, m, fl)) suf -> render m fl = None) \/
    (dict_get String.eqb sid acc = Some pages /\
     forall m fl, In (Some (sid, m, fl)) jobs -> render m fl = None).
Proof.
  intros P render; induction jobs as [|j rest IH]; intros acc Hj Hnd.
  - exists acc; split; [reflexivity|split; [exact Hnd|]].
    intros sid pages; split; [intro H; right; split; [exact H|intros m fl []]|].
    intros [(pre & m & fl & suf & E & _)|[H _]]; [|exact H].
    destruct pre; discriminate.
  - destruct j as [[[s m] fl]|]; [|exfalso; exact (Hj None (or_introl eq_refl) eq_refl)].
    assert (Hj' : forall j, In j rest -> j <> None) by (intros j Hin; apply Hj; right; exact Hin).
    simpl overlay_images.
    destruct (render m fl) as [pg|] eqn:Er.
    + destruct (IH (dict_set String.eqb s pg acc) Hj' (dict_set_NoDup_any _ _ _ Hnd))
        as (ov & Eov & Hnd' & Hspec).
      exists ov; split; [exact Eov|split; [exact Hnd'|]].
      intros sid pages; rewrite Hspec, (dict_get_set String.eqb String.eqb_eq).
      destruct (String.eqb sid s) eqn:Es.
      * apply String.eqb_eq in Es; subst s; split.
        -- intros [(pre & m' & fl' & suf & E & Hr & Hl)|[Hp Hl]].
           ++ left; exists (Some (sid, m, fl) :: pre), m', fl', suf.
              split; [rewrite E; reflexivity|split; assumption].
           ++ left; exists [], m, fl, rest; injection Hp as <-; split; [reflexivity|].
              split; assumption.
        -- intros [(pre & m' & fl' & suf & E & Hr & Hl)|[_ Hl]].
           ++ destruct pre as [|j pre]; simpl in E; inversion E; subst.
              ** right; split; [rewrite Er in Hr; exact Hr|exact Hl].
              ** left; exists pre, m', fl', suf; split; [reflexivity|].
                 split; assumption.
           ++ rewrite (Hl m fl (or_introl eq_refl)) in Er; discriminate.
      * assert (Hne : s <> sid) by (intro H; subst; rewrite String.eqb_refl in Es; discriminate).
        split.
        -- intros [(pre & m' & fl' & suf & E & Hr & Hl)|[Hp Hl]].
           ++ left; exists (Some (s, m, fl) :: pre), m', fl', suf.
              split; [rewrite E; reflexivity|split; assumption].
           ++ right; split; [exact Hp|].
              intros m' fl' [H|H]; [injection H as Hs _ _; contradiction|exact (Hl m' fl' H)].
        -- intros [(pre & m' & fl' & suf & E & Hr & Hl)|[Hp Hl]].
           ++ destruct pre as [|j pre]; simpl in E; inversion E; subst.
              ** contradiction.
              ** left; exists pre, m', fl', suf; split; [reflexivity|].
                 split; assumption.
           ++ right; split; [exact Hp|intros m' fl' H; apply Hl; right; exact H].
    + destruct (IH acc Hj' Hnd) as (ov & Eov & Hnd' & Hspec).
      exists ov; split; [exact Eov|split; [exact Hnd'|]].
      intros sid pages; rewrite Hspec; split.
      * intros [(pre & m' & fl' & suf & E & Hr & Hl)|[Hp Hl]].
        -- left; exists (Some (s, m, fl) :: pre), m', fl', suf.
           split; [rewrite E; reflexivity|split; assumption].
        -- right; split; [exact Hp|].
           intros m' fl' [H|H]; [injection H as -> -> ->; exact Er|exact (Hl m' fl' H)].
      * intros [(pre & m' & fl' & suf & E & Hr & Hl)|[Hp Hl]].
        -- destruct pre as [|j pre]; simpl in E; inversion E; subst.
           ++ rewrite Er in Hr; discriminate.
           ++ left; exists pre, m', fl', suf; split; [reflexivity|].
              split; assumption.
        -- right; split; [exact Hp|intros m' fl' H; apply Hl; right; exact H].
Qed.

(** X18: [overlay_images] is keyed by the student alone: building it over
    the jobs of a directory never fails, holds one entry per student, and
    the pages stored for a student are those of the student's last group
    whose main file was processed; the pages of earlier groups of the same
    student are overwritten and no PDF is written for them. *)
Theorem overlay_images_last_group : forall {P : Type}
  (render : string -> list string -> option P) image_files,
  exists ov, overlay_images render (directory_jobs image_files) [] = Some ov /\
  NoDup (map fst ov) /\
  forall student_id pages,
    dict_get String.eqb student_id ov = Some pages <->
    exists pre main_file file_list suf,
      directory_jobs image_files = (pre ++ Some (student_id, main_file, file_list) :: suf)%list /\
      render main_file file_list = Some pages /\
      forall m fl, In (Some (student_id, m, fl)) suf -> render m fl = None.
Proof.
  intros P render image_files.
  destruct (overlay_images_spec render (directory_jobs image_files) []
              (directory_jobs_some image_files) (NoDup_nil _)) as (ov & Eov & Hnd & Hspec).
  exists ov; split; [exact Eov|split; [exact Hnd|]].
  intros sid pages; rewrite Hspec; split; [|intro H; left; exact H].
  intros [H|[H _]]; [exact H|discriminate].
Qed.

(** Two groups of student [s1] in one directory: only the pages of the
    later group, [s1_2], are kept for the PDF. *)
Example overlay_images_one_per_student :
  overlay_images (fun main_file _ => Some main_file)
    (directory_jobs ["p/s1_1.jpg"; "p/s1_2.jpg"; "p/s2_1.jpg"]) [] =
  Some [("s1", "p/s1_2.jpg"); ("s2", "p/s2_1.jpg")].
Proof. vm_compute; reflexivity. Qed.
